(** * Question-skill link selection (core/storage/question/gae_models.py)

    A shallow embedding of [QuestionSkillLinkModel]: the model id, [create],
    and the two selectors
    [get_question_skill_links_equidistributed_by_skill] and
    [get_question_skill_links_based_on_difficulty_equidistributed_by_skill].

    Modelling decisions.
    - Python [int] is [Z]; [len] is [nat]; [str] is [string].
    - [skill_difficulty] and the requested difficulty are floats in the
      source; they are modelled as rationals [Q].  Only the order of the
      values and of their absolute differences is used.  The quotient
      [float(total) / float(len)] and [math.ceil] are taken exactly.
    - The datastore is a list of entities; the order of the list is the
      order in which an unordered query yields them.
    - Every store read is recorded in a log, so that statements about which
      queries a call performs can be made.
    - [question_skill_link_mapping] is a dict; it is modelled as an
      association list in insertion order (the order in which [values()]
      lists a dict in Python 3.7 and later). *)

From Stdlib Require Import String Ascii List Sorted Permutation Decimal DecimalString DecimalPos DecimalZ ZArith QArith Qabs Qround Lia Bool Arith.
Import ListNotations.

Local Open Scope string_scope.
Local Open Scope list_scope.
Local Open Scope Z_scope.

(** ** Entities *)

Record Link : Type := mkLink {
  id : string;
  question_id : string;
  skill_id : string;
  skill_difficulty : Q
}.

(** Equality of two entities, as [list.remove] tests it: same key and same
    property values. *)
Definition link_eqb (a b : Link) : bool :=
  String.eqb (id a) (id b) &&
  String.eqb (question_id a) (question_id b) &&
  String.eqb (skill_id a) (skill_id b) &&
  Qeq_bool (skill_difficulty a) (skill_difficulty b).

(** ** Exceptions and the store-reading monad *)

Inductive exn : Type :=
| Exception (msg : string)
| ZeroDivisionError.

Inductive result (A : Type) : Type :=
| Ok (a : A)
| Raise (e : exn).
Arguments Ok {A} a.
Arguments Raise {A} e.

(** The queries the selectors send to the datastore.  [limit] is the argument
    of [fetch]. *)
Inductive Query : Type :=
| QBySkill (skill : string) (limit : Z)
    (* cls.query(cls.skill_id == skill).fetch(limit) *)
| QEqual (skill : string) (difficulty : Q) (limit : Z)
    (* ... .filter(cls.skill_difficulty == difficulty).fetch(limit) *)
| QEasier (skill : string) (difficulty : Q) (limit : Z)
    (* ... .filter(cls.skill_difficulty < difficulty)
           .order(-cls.skill_difficulty).fetch(limit) *)
| QHarder (skill : string) (difficulty : Q) (limit : Z).
    (* ... .filter(cls.skill_difficulty > difficulty)
           .order(cls.skill_difficulty).fetch(limit) *)

(** A computation that may read the store and may raise: it extends the log
    of reads performed so far. *)
Definition M (A : Type) : Type := list Query -> result A * list Query.

Definition ret {A} (a : A) : M A := fun log => (Ok a, log).
Definition raise {A} (e : exn) : M A := fun log => (Raise e, log).
Definition bind {A B} (m : M A) (k : A -> M B) : M B :=
  fun log =>
    match m log with
    | (Ok a, log') => k a log'
    | (Raise e, log') => (Raise e, log')
    end.
Definition lift {A} (r : result A) : M A := fun log => (r, log).

Notation "x <- m ;; k" := (bind m (fun x => k))
  (at level 61, m at next level, right associativity).

(** [for x in xs: acc = body(acc, x)] *)
Fixpoint for_each {A S} (body : S -> A -> M S) (xs : list A) (acc : S) : M S :=
  match xs with
  | [] => ret acc
  | x :: xs' => acc' <- body acc x ;; for_each body xs' acc'
  end.

Definition run {A} (m : M A) : result A * list Query := m [].

(** ** Python list helpers *)

(** [lst.remove(x)]: delete the first element equal to [x].  (The source only
    calls it with an element of the list, so the [ValueError] case does not
    arise.) *)
Fixpoint list_remove (x : Link) (lst : list Link) : list Link :=
  match lst with
  | [] => []
  | y :: ys => if link_eqb y x then ys else y :: list_remove x ys
  end.

(** [lst[:q]] for a Python int [q]: a negative bound counts from the end. *)
Definition slice_to {A} (lst : list A) (q : Z) : list A :=
  if 0 <=? q then firstn (Z.to_nat q) lst
  else firstn (length lst - Z.to_nat (- q)) lst.

(** The loop
<<
    for model in lst:
        if seen(model.question_id):
            lst.remove(model)
>>
    The list iterator keeps an index [i]; each round reads [lst[i]], advances
    the index, and runs the body on the list as it is then.  [fuel] bounds the
    number of rounds. *)
Fixpoint remove_seen_loop (seen : string -> bool) (fuel i : nat)
    (lst : list Link) : list Link :=
  match fuel with
  | O => lst
  | S fuel' =>
      match nth_error lst i with
      | None => lst
      | Some model =>
          if seen (question_id model)
          then remove_seen_loop seen fuel' (S i) (list_remove model lst)
          else remove_seen_loop seen fuel' (S i) lst
      end
  end.

(** The loop started at index 0; [length lst] rounds always suffice
    (see [remove_seen_loop_fuel]). *)
Definition remove_seen (seen : string -> bool) (lst : list Link) : list Link :=
  remove_seen_loop seen (length lst) 0 lst.

(** [sorted(lst, key=key)]: a stable sort by ascending key. *)
Fixpoint insert_by (key : Link -> Q) (x : Link) (lst : list Link) : list Link :=
  match lst with
  | [] => [x]
  | y :: ys =>
      if Qle_bool (key x) (key y) then x :: y :: ys
      else y :: insert_by key x ys
  end.

Fixpoint sorted (key : Link -> Q) (lst : list Link) : list Link :=
  match lst with
  | [] => []
  | x :: xs => insert_by key x (sorted key xs)
  end.

(** ** Constants and helpers of other modules *)

(** Modelled from the spec: [feconf.MAX_NUMBER_OF_SKILL_IDS], the number of
    skill ids a selection call accepts (20). *)
Definition MAX_NUMBER_OF_SKILL_IDS : nat := 20.

(** Modelled from the spec: [python_utils.divide], true division, which
    raises [ZeroDivisionError] on a zero divisor. *)
Definition divide (x y : Q) : result Q :=
  if Qeq_bool y 0 then Raise ZeroDivisionError else Ok (x / y)%Q.

(** [int(math.ceil(python_utils.divide(float(total), float(len(skill_ids)))))] *)
Definition question_count_per_skill (total_question_count : Z)
    (skill_ids : list string) : result Z :=
  match divide (inject_Z total_question_count)
               (inject_Z (Z.of_nat (length skill_ids))) with
  | Ok x => Ok (Qceiling x)
  | Raise e => Raise e
  end.

(** ** [get_model_id] and [create] *)

Definition get_model_id (question_id skill_id : string) : string :=
  (question_id ++ ":" ++ skill_id)%string.

Definition Datastore : Type := list Link.

(** Modelled from the spec: [cls.get(id, strict=False)] of the base model,
    the stored entity with that id, or [None]. *)
Definition get (db : Datastore) (entity_id : string) : option Link :=
  find (fun l => String.eqb (id l) entity_id) db.

(** [create] reads the store once and writes nothing: the store it leaves
    behind is returned next to its result. *)
Definition create (db : Datastore) (question_id skill_id : string)
    (skill_difficulty : Q) : result Link * Datastore :=
  let question_skill_link_id := get_model_id question_id skill_id in
  match get db question_skill_link_id with
  | Some _ =>
      (Raise (Exception "The given question is already linked to given skill"),
       db)
  | None =>
      (Ok (mkLink question_skill_link_id question_id skill_id skill_difficulty),
       db)
  end.

(** ** The selectors, over an arbitrary store *)

Section Selectors.

(** What the store answers to a query. *)
Variable fetch_result : Query -> list Link.

Definition fetch (q : Query) : M (list Link) :=
  fun log => (Ok (fetch_result q), log ++ [q]).

(** *** get_question_skill_links_equidistributed_by_skill *)

(** [x in existing_question_ids] *)
Definition in_list (existing : list string) (x : string) : bool :=
  existsb (String.eqb x) existing.

(** State of the loop: [question_skill_link_models] and
    [existing_question_ids]. *)
Definition equi_state : Type := (list Link * list string)%type.

Definition equi_body (per_skill : Z) (st : equi_state) (skill : string)
    : M equi_state :=
  let '(question_skill_link_models, existing_question_ids) := st in
  fetched <- fetch (QBySkill skill (per_skill * 2)) ;;
  (* Deduplicate if the same question is linked to multiple skills. *)
  let new_question_skill_link_models :=
    remove_seen (in_list existing_question_ids) fetched in
  ret (question_skill_link_models
         ++ slice_to new_question_skill_link_models per_skill,
       existing_question_ids
         ++ map question_id new_question_skill_link_models).

Definition get_question_skill_links_equidistributed_by_skill
    (total_question_count : Z) (skill_ids : list string) : M (list Link) :=
  if (MAX_NUMBER_OF_SKILL_IDS <? length skill_ids)%nat
  then raise (Exception "Please keep the number of skill IDs below 20.")
  else
    per_skill <- lift (question_count_per_skill total_question_count
                         skill_ids) ;;
    st <- for_each (equi_body per_skill) skill_ids ([], []) ;;
    ret (fst st).

(** *** get_question_skill_links_based_on_difficulty_equidistributed_by_skill *)

(** The dict [question_skill_link_mapping], in insertion order. *)
Definition Mapping : Type := list (string * Link).

(** [key in mapping] *)
Definition in_mapping (mapping : Mapping) (key : string) : bool :=
  existsb (fun kv => String.eqb key (fst kv)) mapping.

(** [if model.question_id not in mapping: mapping[model.question_id] = model] *)
Definition insert_if_absent (mapping : Mapping) (model : Link) : Mapping :=
  if in_mapping mapping (question_id model) then mapping
  else mapping ++ [(question_id model, model)].

(** [list(mapping.values())] *)
Definition values (mapping : Mapping) : list Link := map snd mapping.

(** [abs(model.skill_difficulty - difficulty_requested)] *)
Definition distance (difficulty_requested : Q) (model : Link) : Q :=
  Qabs (skill_difficulty model - difficulty_requested).

Definition shorter_than (lst : list Link) (q : Z) : bool :=
  Z.of_nat (length lst) <? q.

(** The candidates of one skill, before truncation. *)
Definition difficulty_candidates (per_skill : Z) (difficulty_requested : Q)
    (mapping : Mapping) (skill : string) : M (list Link) :=
  equal <- fetch (QEqual skill difficulty_requested (per_skill * 2)) ;;
  let new_models := remove_seen (in_mapping mapping) equal in
  if shorter_than new_models per_skill then
    easier <- fetch (QEasier skill difficulty_requested per_skill) ;;
    let new_models := new_models ++ remove_seen (in_mapping mapping) easier in
    new_models <-
      (if shorter_than new_models per_skill then
         harder <- fetch (QHarder skill difficulty_requested per_skill) ;;
         ret (new_models ++ remove_seen (in_mapping mapping) harder)
       else ret new_models) ;;
    ret (sorted (distance difficulty_requested) new_models)
  else ret new_models.

Definition difficulty_body (per_skill : Z) (difficulty_requested : Q)
    (mapping : Mapping) (skill : string) : M Mapping :=
  new_models <- difficulty_candidates per_skill difficulty_requested
                  mapping skill ;;
  let new_models := slice_to new_models per_skill in
  ret (fold_left insert_if_absent new_models mapping).

Definition get_question_skill_links_based_on_difficulty_equidistributed_by_skill
    (total_question_count : Z) (skill_ids : list string)
    (difficulty_requested : Q) : M (list Link) :=
  if (MAX_NUMBER_OF_SKILL_IDS <? length skill_ids)%nat
  then raise (Exception "Please keep the number of skill IDs below 20.")
  else
    per_skill <- lift (question_count_per_skill total_question_count
                         skill_ids) ;;
    mapping <- for_each (difficulty_body per_skill difficulty_requested)
                 skill_ids [] ;;
    ret (values mapping).

End Selectors.

(** ** A list-backed datastore *)

(** [fetch(limit)] on a query whose matches are [matches]. *)
Definition limit_to (limit : Z) (matches : list Link) : list Link :=
  firstn (Z.to_nat limit) matches.

Definition with_skill (skill : string) (db : Datastore) : list Link :=
  filter (fun l => String.eqb (skill_id l) skill) db.

Definition Qlt_bool (x y : Q) : bool := negb (Qle_bool y x).

(** The answer of the store [db] to a query.  Ordered queries sort the
    matches stably, so entities of equal difficulty stay in store order. *)
Definition run_query (db : Datastore) (q : Query) : list Link :=
  match q with
  | QBySkill skill limit => limit_to limit (with_skill skill db)
  | QEqual skill d limit =>
      limit_to limit
        (filter (fun l => Qeq_bool (skill_difficulty l) d) (with_skill skill db))
  | QEasier skill d limit =>
      limit_to limit
        (sorted (fun l => - skill_difficulty l)%Q
           (filter (fun l => Qlt_bool (skill_difficulty l) d)
              (with_skill skill db)))
  | QHarder skill d limit =>
      limit_to limit
        (sorted skill_difficulty
           (filter (fun l => Qlt_bool d (skill_difficulty l))
              (with_skill skill db)))
  end.

(** ** The other queries of [QuestionSkillLinkModel] *)

(** [get_all_question_ids_linked_to_skill_id]: the comprehension runs over
    the whole query [cls.query(cls.skill_id == skill_id)]. *)
Definition get_all_question_ids_linked_to_skill_id (db : Datastore)
    (skill : string) : list string :=
  map question_id (with_skill skill db).

(** [get_models_by_skill_id]: [fetch()] without a limit returns every
    match. *)
Definition get_models_by_skill_id (db : Datastore) (skill : string)
    : list Link :=
  with_skill skill db.

(** ** [QuestionCommitLogEntryModel._get_instance_id] *)

(** ['%s' % n] for a Python int [n]: its decimal numeral, with a leading
    ['-'] when negative. *)
Definition str_of_int (n : Z) : string :=
  NilZero.string_of_int (Z.to_int n).

(** ['question-%s-%s' % (question_id, question_version)] *)
Definition get_instance_id (question_id : string) (question_version : Z)
    : string :=
  ("question-" ++ question_id ++ "-" ++ str_of_int question_version)%string.

(** ** [QuestionModel] *)

Module Question.

(** The properties of a question; [StateData] stands for the JSON object
    [question_state_data], which the functions below only pass on. *)
Record QuestionModel (StateData : Type) : Type := mkQuestion {
  id : string;
  question_state_data : StateData;
  language_code : string;
  version : Z;
  linked_skill_ids : list string
}.
Arguments mkQuestion {StateData}.
Arguments id {StateData}.
Arguments question_state_data {StateData}.
Arguments language_code {StateData}.
Arguments version {StateData}.
Arguments linked_skill_ids {StateData}.

Definition too_many_collisions : exn :=
  Exception
    "The id generator for QuestionModel is producing too many collisions.".

(** [cls.get_by_id(entity_id)] on a store given as the list of its
    entities. *)
Definition get_by_id {StateData} (store : list (QuestionModel StateData))
    (entity_id : string) : option (QuestionModel StateData) :=
  find (fun m => String.eqb (id m) entity_id) store.

(** The loop of [_get_new_id].  [new_ids k] is the id that the [k]-th round
    computes, [utils.convert_to_hash(UNICODE(utils.get_random_int(...)),
    ID_LENGTH)]; [retries] counts the rounds that are left and [attempt] the
    rounds done. *)
Fixpoint get_new_id_loop {StateData} (store : list (QuestionModel StateData))
    (new_ids : nat -> string) (retries attempt : nat) : result string :=
  match retries with
  | O => Raise too_many_collisions
  | S retries' =>
      let new_id := new_ids attempt in
      match get_by_id store new_id with
      | None => Ok new_id
      | Some _ => get_new_id_loop store new_ids retries' (S attempt)
      end
  end.

(** [_get_new_id]; [MAX_RETRIES] is [base_models.MAX_RETRIES]. *)
Definition get_new_id {StateData} (MAX_RETRIES : nat)
    (store : list (QuestionModel StateData)) (new_ids : nat -> string)
    : result string :=
  get_new_id_loop store new_ids MAX_RETRIES 0.

(** [QuestionModel.create] *)
Definition create {StateData} (MAX_RETRIES : nat)
    (store : list (QuestionModel StateData)) (new_ids : nat -> string)
    (question_state_data : StateData) (language_code : string) (version : Z)
    (linked_skill_ids : list string) : result (QuestionModel StateData) :=
  match get_new_id MAX_RETRIES store new_ids with
  | Ok instance_id =>
      Ok (mkQuestion instance_id question_state_data language_code version
            linked_skill_ids)
  | Raise e => Raise e
  end.

End Question.

(** ** [QuestionSummaryModel] *)

Module Summary.

(** The properties the functions below read; the two timestamps of the
    model play no part in them and are left out. *)
Record QuestionSummaryModel : Type := mkSummary {
  id : string;
  creator_id : string;
  question_content : string
}.

(** [cls.query(cls.creator_id == user_id).get() is not None] *)
Definition has_reference_to_user_id (store : list QuestionSummaryModel)
    (user_id : string) : bool :=
  match find (fun m => String.eqb (creator_id m) user_id) store with
  | Some _ => true
  | None => false
  end.

(** [QuestionSummaryModel.query().filter(cls.creator_id == creator_id).fetch()] *)
Definition get_by_creator_id (store : list QuestionSummaryModel)
    (creator : string) : list QuestionSummaryModel :=
  filter (fun m => String.eqb (creator_id m) creator) store.

End Summary.

(** ** Writing links *)

(** [put_multi_question_skill_links] and [delete_multi_question_skill_links]
    hand their argument to [put_multi] and [delete_multi] of the base
    model. *)
Definition put_multi_question_skill_links
    (put_multi : Datastore -> list Link -> Datastore)
    (db : Datastore) (question_skill_links : list Link) : Datastore :=
  put_multi db question_skill_links.

Definition delete_multi_question_skill_links
    (delete_multi : Datastore -> list Link -> Datastore)
    (db : Datastore) (question_skill_links : list Link) : Datastore :=
  delete_multi db question_skill_links.

(** What the statements below ask of a store: a written entity is found
    under its id, a deleted one is not, and other ids are not touched. *)
Record store_laws (put_multi delete_multi : Datastore -> list Link -> Datastore)
    : Prop := {
  get_put_same : forall db l, get (put_multi db [l]) (id l) = Some l;
  get_put_other : forall db l key,
    key <> id l -> get (put_multi db [l]) key = get db key;
  get_delete_same : forall db l, get (delete_multi db [l]) (id l) = None;
  get_delete_other : forall db l key,
    key <> id l -> get (delete_multi db [l]) key = get db key
}.

(** A store on a list: writing replaces the entity of the same id or
    appends, deleting drops the entities of the given ids. *)
Definition list_put (db : Datastore) (l : Link) : Datastore :=
  if existsb (fun x => String.eqb (id x) (id l)) db
  then map (fun x => if String.eqb (id x) (id l) then l else x) db
  else db ++ [l].

Definition list_put_multi (db : Datastore) (links : list Link) : Datastore :=
  fold_left list_put links db.

Definition list_delete_multi (db : Datastore) (links : list Link)
    : Datastore :=
  filter (fun x => negb (existsb (fun l => String.eqb (id l) (id x)) links)) db.

(** ** A reading of the deduplication loop *)

(** What the loop of [remove_seen] comes to on a list of different
    entities: a seen element is dropped and the element after it is passed
    over unexamined. *)
Fixpoint skipping_filter (seen : string -> bool) (lst : list Link)
    : list Link :=
  match lst with
  | [] => []
  | x :: rest =>
      if seen (question_id x) then
        match rest with
        | [] => []
        | y :: rest' => y :: skipping_filter seen rest'
        end
      else x :: skipping_filter seen rest
  end.

(** No two neighbours of the list are both seen. *)
Fixpoint no_adjacent_seen (seen : string -> bool) (lst : list Link) : Prop :=
  match lst with
  | [] => True
  | x :: rest =>
      match rest with
      | [] => True
      | y :: _ => ~ (seen (question_id x) = true /\ seen (question_id y) = true)
      end /\ no_adjacent_seen seen rest
  end.

(** ** Derived notions used in the statements *)

(** [l1] is [l2] with some elements left out, order kept. *)
Inductive subseq {A : Type} : list A -> list A -> Prop :=
| subseq_nil : subseq [] []
| subseq_skip x l1 l2 : subseq l1 l2 -> subseq l1 (x :: l2)
| subseq_keep x l1 l2 : subseq l1 l2 -> subseq (x :: l1) (x :: l2).

(** The keys never decrease along the list. *)
Definition sorted_by (key : Link -> Q) (lst : list Link) : Prop :=
  StronglySorted (fun a b => (key a <= key b)%Q) lst.

(** The absolute differences to the requested difficulty never decrease
    along the list. *)
Definition ascending (difficulty_requested : Q) (lst : list Link) : Prop :=
  sorted_by (distance difficulty_requested) lst.


(** Keys of the mapping are pairwise different and every entry sits under
    its own question id. *)
Definition keyed (mapping : Mapping) : Prop :=
  NoDup (map fst mapping) /\
  Forall (fun kv => question_id (snd kv) = fst kv) mapping.



(** The skill a query asks for. *)
Definition query_skill (q : Query) : string :=
  match q with
  | QBySkill skill _ | QEqual skill _ _
  | QEasier skill _ _ | QHarder skill _ _ => skill
  end.

(** No [':'] in an id. *)
Fixpoint no_colon (s : string) : bool :=
  match s with
  | EmptyString => true
  | String c s' => negb (Ascii.eqb c ":"%char) && no_colon s'
  end.

(** Every stored entity sits under the model id of its own fields. *)
Definition well_keyed (db : Datastore) : Prop :=
  Forall (fun l => id l = get_model_id (question_id l) (skill_id l)) db.

(** The precondition the selectors' callers are expected to meet. *)
Definition valid_input (total_question_count : Z) (skill_ids : list string)
    : Prop :=
  skill_ids <> [] /\
  (length skill_ids <= MAX_NUMBER_OF_SKILL_IDS)%nat /\
  0 <= total_question_count.

(** ** Sample stores *)

(** An entity stored under the model id of its fields. *)
Definition link (question_id skill_id : string) (skill_difficulty : Q) : Link :=
  mkLink (get_model_id question_id skill_id)
         question_id skill_id skill_difficulty.

(** Two questions, each linked to both skills. *)
Definition db_shared : Datastore :=
  [ link "q1" "s1" (1#2); link "q2" "s1" (1#2);
    link "q1" "s2" (1#2); link "q2" "s2" (1#2) ].

(** Two questions under s1; the second is also the only one under s2. *)
Definition db_overfetch : Datastore :=
  [ link "q1" "s1" (1#2); link "q2" "s1" (1#2); link "q2" "s2" (1#2) ].


(** Two links for s1 (difficulty 0.3, 0.5) and three for s2
    (0.1, 0.4, 0.9). *)
Definition db_scenario : Datastore :=
  [ link "q1" "s1" (3#10); link "q2" "s1" (5#10);
    link "q3" "s2" (1#10); link "q4" "s2" (4#10); link "q5" "s2" (9#10) ].


(** Twenty-one different skill ids. *)
Definition twenty_one_skill_ids : list string :=
  [ "s01"; "s02"; "s03"; "s04"; "s05"; "s06"; "s07"; "s08"; "s09"; "s10";
    "s11"; "s12"; "s13"; "s14"; "s15"; "s16"; "s17"; "s18"; "s19"; "s20";
    "s21" ].

Definition too_many_skill_ids : exn :=
  Exception "Please keep the number of skill IDs below 20.".

Definition already_linked : exn :=
  Exception "The given question is already linked to given skill".

(** Decides [valid_input] on a concrete input. *)
Ltac valid_input_tac :=
  repeat split;
  [ discriminate | unfold MAX_NUMBER_OF_SKILL_IDS; simpl; lia | lia ].

(** * Basic facts *)

Section ListFacts.
Context {A : Type}.

Lemma subseq_refl (l : list A) : subseq l l.
Proof. induction l; constructor; assumption. Qed.

Lemma subseq_nil_l (l : list A) : subseq [] l.
Proof. induction l; constructor; assumption. Qed.

Lemma subseq_trans (l1 l2 l3 : list A) :
  subseq l1 l2 -> subseq l2 l3 -> subseq l1 l3.
Proof.
  intros H12 H23. revert l1 H12.
  induction H23 as [|x l2 l3 _ IH|x l2 l3 _ IH]; intros l1 H12.
  - exact H12.
  - apply subseq_skip, IH, H12.
  - inversion H12; subst.
    + apply subseq_skip, IH. assumption.
    + apply subseq_keep, IH. assumption.
Qed.

Lemma subseq_length (l1 l2 : list A) :
  subseq l1 l2 -> (length l1 <= length l2)%nat.
Proof. induction 1; simpl; lia. Qed.

Lemma subseq_Forall (P : A -> Prop) (l1 l2 : list A) :
  subseq l1 l2 -> Forall P l2 -> Forall P l1.
Proof.
  induction 1; intros HF; auto.
  - inversion HF; auto.
  - inversion HF; subst. constructor; auto.
Qed.

Lemma subseq_In (l1 l2 : list A) (x : A) :
  subseq l1 l2 -> In x l1 -> In x l2.
Proof.
  induction 1; simpl; intros Hin; auto.
  destruct Hin; auto.
Qed.

Lemma subseq_StronglySorted (R : A -> A -> Prop) (l1 l2 : list A) :
  subseq l1 l2 -> StronglySorted R l2 -> StronglySorted R l1.
Proof.
  induction 1; intros HS; auto.
  - inversion HS; auto.
  - inversion HS; subst. constructor; auto.
    eapply subseq_Forall; eauto.
Qed.

Lemma subseq_firstn (n : nat) (l : list A) : subseq (firstn n l) l.
Proof.
  revert n. induction l as [|x l IH]; intros [|n]; simpl.
  - constructor.
  - constructor.
  - apply subseq_nil_l.
  - apply subseq_keep, IH.
Qed.

Lemma subseq_app (l1 l2 k1 k2 : list A) :
  subseq l1 l2 -> subseq k1 k2 -> subseq (l1 ++ k1) (l2 ++ k2).
Proof.
  induction 1; simpl; intros Hk.
  - assumption.
  - apply subseq_skip; auto.
  - apply subseq_keep; auto.
Qed.

Lemma subseq_slice_to (l : list A) (q : Z) : subseq (slice_to l q) l.
Proof. unfold slice_to. destruct (0 <=? q); apply subseq_firstn. Qed.

Lemma slice_to_length (l : list A) (q : Z) :
  0 <= q -> Z.of_nat (length (slice_to l q)) <= q.
Proof.
  intros Hq. unfold slice_to.
  destruct (0 <=? q) eqn:E; [|lia].
  rewrite length_firstn. lia.
Qed.

End ListFacts.

(** ** The monad *)

Lemma bind_ok {A B} (m : M A) (k : A -> M B) log a log' :
  m log = (Ok a, log') -> bind m k log = k a log'.
Proof. unfold bind. intros ->. reflexivity. Qed.

Lemma bind_raise {A B} (m : M A) (k : A -> M B) log e log' :
  m log = (Raise e, log') -> bind m k log = (Raise e, log').
Proof. unfold bind. intros ->. reflexivity. Qed.

(** A loop whose body always returns, and takes an invariant of the entries
    processed so far one entry further, returns with the invariant of all
    entries. *)
Lemma for_each_inv {A S} (body : S -> A -> M S) (P : list A -> S -> Prop) :
  (forall pre acc x log, P pre acc ->
     exists acc' log', body acc x log = (Ok acc', log') /\ P (pre ++ [x]) acc') ->
  forall xs pre acc log, P pre acc ->
    exists acc' log',
      for_each body xs acc log = (Ok acc', log') /\ P (pre ++ xs) acc'.
Proof.
  intros Hbody. induction xs as [|x xs IH]; intros pre acc log HP; simpl.
  - exists acc, log. rewrite app_nil_r. split; [reflexivity|assumption].
  - destruct (Hbody pre acc x log HP) as (acc1 & log1 & E1 & HP1).
    destruct (IH (pre ++ [x]) acc1 log1 HP1) as (acc2 & log2 & E2 & HP2).
    exists acc2, log2. rewrite (bind_ok _ _ _ _ _ E1).
    rewrite <- app_assoc in HP2. split; assumption.
Qed.

(** ** Removing seen candidates *)

Lemma list_remove_subseq (x : Link) (lst : list Link) :
  subseq (list_remove x lst) lst.
Proof.
  induction lst as [|y ys IH]; simpl.
  - constructor.
  - destruct (link_eqb y x).
    + apply subseq_skip, subseq_refl.
    + apply subseq_keep, IH.
Qed.

Lemma remove_seen_loop_subseq seen : forall fuel i lst,
  subseq (remove_seen_loop seen fuel i lst) lst.
Proof.
  induction fuel as [|fuel IH]; intros i lst; simpl.
  - apply subseq_refl.
  - destruct (nth_error lst i) as [model|]; [|apply subseq_refl].
    destruct (seen (question_id model)); [|apply IH].
    eapply subseq_trans; [apply IH|apply list_remove_subseq].
Qed.

Lemma remove_seen_subseq seen lst : subseq (remove_seen seen lst) lst.
Proof. apply remove_seen_loop_subseq. Qed.

(** The bound [length lst] on the number of rounds is never reached early:
    more fuel does not change the outcome. *)
Lemma remove_seen_loop_fuel seen : forall fuel i lst,
  (length lst - i <= fuel)%nat ->
  forall extra,
    remove_seen_loop seen (fuel + extra) i lst
    = remove_seen_loop seen fuel i lst.
Proof.
  induction fuel as [|fuel IH]; intros i lst Hlen extra.
  - simpl. destruct extra as [|extra]; simpl; [reflexivity|].
    destruct (nth_error lst i) eqn:E; [|reflexivity].
    assert (i < length lst)%nat by (apply nth_error_Some; congruence). lia.
  - simpl. destruct (nth_error lst i) as [model|] eqn:E; [|reflexivity].
    assert (i < length lst)%nat by (apply nth_error_Some; congruence).
    destruct (seen (question_id model)).
    + apply IH.
      pose proof (subseq_length _ _ (list_remove_subseq model lst)). lia.
    + apply IH. lia.
Qed.

(** ** Sorting *)

Section Sorting.
Variable key : Link -> Q.

Lemma insert_by_Forall (P : Link -> Prop) x lst :
  P x -> Forall P lst -> Forall P (insert_by key x lst).
Proof.
  intros Hx. induction 1 as [|y ys Hy Hys IH]; simpl.
  - constructor; auto.
  - destruct (Qle_bool (key x) (key y)); repeat constructor; auto.
Qed.

Lemma sorted_Forall (P : Link -> Prop) lst :
  Forall P lst -> Forall P (sorted key lst).
Proof.
  induction 1; simpl; [constructor|]. apply insert_by_Forall; assumption.
Qed.

Lemma insert_by_sorted x lst :
  sorted_by key lst -> sorted_by key (insert_by key x lst).
Proof.
  induction 1 as [|y ys Hys IH Hy]; simpl.
  - repeat constructor.
  - destruct (Qle_bool (key x) (key y)) eqn:E.
    + apply Qle_bool_iff in E. constructor.
      * constructor; assumption.
      * constructor; [exact E|].
        eapply Forall_impl; [|exact Hy].
        intros b Hb. simpl in *. eapply Qle_trans; eassumption.
    + constructor; [exact IH|].
      apply insert_by_Forall; [|exact Hy].
      apply Qlt_le_weak, Qnot_le_lt.
      intros Hle. apply Qle_bool_iff in Hle. congruence.
Qed.

Lemma sorted_sorted lst : sorted_by key (sorted key lst).
Proof.
  induction lst; simpl; [constructor|]. apply insert_by_sorted; assumption.
Qed.

Lemma insert_by_length x lst :
  length (insert_by key x lst) = S (length lst).
Proof.
  induction lst as [|y ys IH]; simpl; [reflexivity|].
  destruct (Qle_bool (key x) (key y)); simpl; congruence.
Qed.

Lemma sorted_length lst : length (sorted key lst) = length lst.
Proof.
  induction lst; simpl; [reflexivity|]. rewrite insert_by_length. congruence.
Qed.

Lemma insert_by_Permutation x lst :
  Permutation (x :: lst) (insert_by key x lst).
Proof.
  induction lst as [|y ys IH]; simpl; [apply Permutation_refl|].
  destruct (Qle_bool (key x) (key y)); [apply Permutation_refl|].
  eapply perm_trans; [apply perm_swap|]. apply perm_skip, IH.
Qed.

(** Sorting rearranges: it neither drops nor adds. *)
Lemma sorted_Permutation lst : Permutation lst (sorted key lst).
Proof.
  induction lst as [|x xs IH]; simpl; [constructor|].
  eapply perm_trans; [apply perm_skip, IH|apply insert_by_Permutation].
Qed.

End Sorting.





(** ** The mapping *)

Lemma in_mapping_spec mapping key :
  in_mapping mapping key = true <-> In key (map fst mapping).
Proof.
  unfold in_mapping. rewrite existsb_exists, in_map_iff. split.
  - intros (kv & Hin & E). apply String.eqb_eq in E. exists kv. auto.
  - intros (kv & E & Hin). exists kv. split; [assumption|].
    apply String.eqb_eq. auto.
Qed.

Lemma insert_if_absent_keyed mapping model :
  keyed mapping -> keyed (insert_if_absent mapping model).
Proof.
  intros [Hnd Hk]. unfold insert_if_absent.
  destruct (in_mapping mapping (question_id model)) eqn:E; [split; assumption|].
  split.
  - rewrite map_app. simpl.
    apply NoDup_app; [assumption|repeat constructor; intros []|].
    intros k Hin [<-|[]]. apply in_mapping_spec in Hin. congruence.
  - apply Forall_app. split; [assumption|]. repeat constructor.
Qed.

(** Merging candidates appends, for some of them and in their order, one new
    entry each. *)
Lemma merge_appends : forall new_models mapping,
  exists block,
    fold_left insert_if_absent new_models mapping = mapping ++ block /\
    subseq (map snd block) new_models.
Proof.
  induction new_models as [|x rest IH]; intros mapping; simpl.
  - exists []. rewrite app_nil_r. split; [reflexivity|constructor].
  - destruct (IH (insert_if_absent mapping x)) as (block & E & Hsub).
    unfold insert_if_absent in *.
    destruct (in_mapping mapping (question_id x)).
    + exists block. split; [assumption|]. apply subseq_skip. assumption.
    + exists ((question_id x, x) :: block). rewrite <- app_assoc in E.
      split; [assumption|]. simpl. apply subseq_keep. assumption.
Qed.

Lemma merge_keyed : forall new_models mapping,
  keyed mapping -> keyed (fold_left insert_if_absent new_models mapping).
Proof.
  induction new_models as [|x rest IH]; intros mapping Hk; simpl; auto.
  apply IH, insert_if_absent_keyed, Hk.
Qed.

Lemma keyed_values_NoDup mapping :
  keyed mapping -> NoDup (map question_id (values mapping)).
Proof.
  intros [Hnd Hk]. unfold values. rewrite map_map.
  replace (map (fun kv => question_id (snd kv)) mapping) with (map fst mapping);
    [assumption|].
  apply map_ext_in. intros kv Hin. rewrite Forall_forall in Hk.
  symmetry. apply Hk, Hin.
Qed.

(** ** The quota *)

Lemma quota_spec total skill_ids :
  skill_ids <> [] ->
  exists q, question_count_per_skill total skill_ids = Ok q /\
    (q - 1) * Z.of_nat (length skill_ids) < total
      <= q * Z.of_nat (length skill_ids).
Proof.
  intros Hne. destruct skill_ids as [|s rest]; [congruence|].
  unfold question_count_per_skill, divide.
  set (n := Z.of_nat (length (s :: rest))).
  assert (Hn : 0 < n) by (unfold n; simpl length; lia).
  destruct (Qeq_bool (inject_Z n) 0) eqn:E.
  - apply Qeq_bool_iff in E. unfold Qeq in E. simpl in E. lia.
  - eexists. split; [reflexivity|].
    set (x := (inject_Z total / inject_Z n)%Q).
    pose proof (Qle_ceiling x) as Hle.
    pose proof (Qceiling_lt x) as Hlt.
    assert (Hx : (x * inject_Z n == inject_Z total)%Q).
    { unfold x. field. intros H0. unfold Qeq in H0. simpl in H0. lia. }
    assert (Hpos : (0 < inject_Z n)%Q) by (unfold Qlt; simpl; lia).
    split.
    + apply (Qmult_lt_r _ _ _ Hpos) in Hlt. rewrite Hx in Hlt.
      rewrite <- inject_Z_mult in Hlt. rewrite <- Zlt_Qlt in Hlt. exact Hlt.
    + apply (Qmult_le_r _ _ _ Hpos) in Hle. rewrite Hx in Hle.
      rewrite <- inject_Z_mult in Hle. rewrite <- Zle_Qle in Hle. exact Hle.
Qed.

Lemma quota_nonneg total skill_ids q :
  0 <= total -> question_count_per_skill total skill_ids = Ok q -> 0 <= q.
Proof.
  intros Ht E. destruct skill_ids as [|s rest].
  - discriminate E.
  - destruct (quota_spec total (s :: rest)) as (q' & E' & Hq); [congruence|].
    rewrite E in E'. injection E' as <-. simpl length in Hq. nia.
Qed.

Lemma quota_empty total : question_count_per_skill total [] = Raise ZeroDivisionError.
Proof. reflexivity. Qed.

(** ** The list-backed store *)

Lemma with_skill_Forall skill db :
  Forall (fun l => skill_id l = skill) (with_skill skill db).
Proof.
  apply Forall_forall. intros l Hin. apply filter_In in Hin.
  apply String.eqb_eq, Hin.
Qed.

Lemma limit_to_subseq limit matches : subseq (limit_to limit matches) matches.
Proof. apply subseq_firstn. Qed.

Lemma filter_subseq {A} (f : A -> bool) (l : list A) : subseq (filter f l) l.
Proof.
  induction l as [|x l IH]; simpl; [constructor|].
  destruct (f x); constructor; assumption.
Qed.

Lemma run_query_skill db q :
  Forall (fun l => skill_id l = query_skill q) (run_query db q).
Proof.
  destruct q; simpl;
    (eapply subseq_Forall; [apply limit_to_subseq|]).
  - apply with_skill_Forall.
  - eapply subseq_Forall; [apply filter_subseq|apply with_skill_Forall].
  - apply sorted_Forall.
    eapply subseq_Forall; [apply filter_subseq|apply with_skill_Forall].
  - apply sorted_Forall.
    eapply subseq_Forall; [apply filter_subseq|apply with_skill_Forall].
Qed.


Lemma run_query_easier db skill d limit :
  Forall (fun l => (skill_difficulty l < d)%Q)
    (run_query db (QEasier skill d limit))
  /\ sorted_by (fun l => - skill_difficulty l)%Q
       (run_query db (QEasier skill d limit))
  /\ ascending d (run_query db (QEasier skill d limit)).
Proof.
  assert (Hlt : Forall (fun l => (skill_difficulty l < d)%Q)
                  (run_query db (QEasier skill d limit))).
  { simpl. eapply subseq_Forall; [apply limit_to_subseq|].
    apply sorted_Forall, Forall_forall. intros l Hin. apply filter_In in Hin.
    destruct Hin as [_ Hin]. unfold Qlt_bool in Hin.
    apply negb_true_iff in Hin. apply Qnot_le_lt. intros Hle.
    apply Qle_bool_iff in Hle. congruence. }
  assert (Hs : sorted_by (fun l => - skill_difficulty l)%Q
                 (run_query db (QEasier skill d limit))).
  { simpl. eapply subseq_StronglySorted; [apply limit_to_subseq|].
    apply sorted_sorted. }
  repeat split; try assumption.
  revert Hlt Hs. generalize (run_query db (QEasier skill d limit)) as l.
  induction l as [|a l IH]; intros Hlt Hs; [constructor|].
  inversion Hlt as [|? ? Ha Hl]; inversion Hs as [|? ? Hs' Hal]; subst.
  constructor; [apply IH; assumption|].
  rewrite Forall_forall in *. intros b Hb.
  specialize (Hal b Hb). specialize (Hl b Hb). simpl in Hal.
  unfold distance. rewrite !Qabs_neg.
  - apply Qopp_le_compat in Hal. rewrite !Qopp_involutive in Hal.
    apply Qopp_le_compat. apply Qplus_le_l. exact Hal.
  - apply Qlt_le_weak. rewrite <- (Qplus_opp_r d).
    apply Qplus_lt_l. exact Hl.
  - apply Qlt_le_weak. rewrite <- (Qplus_opp_r d).
    apply Qplus_lt_l. exact Ha.
Qed.

Lemma run_query_harder db skill d limit :
  Forall (fun l => (d < skill_difficulty l)%Q)
    (run_query db (QHarder skill d limit))
  /\ sorted_by skill_difficulty (run_query db (QHarder skill d limit))
  /\ ascending d (run_query db (QHarder skill d limit)).
Proof.
  assert (Hlt : Forall (fun l => (d < skill_difficulty l)%Q)
                  (run_query db (QHarder skill d limit))).
  { simpl. eapply subseq_Forall; [apply limit_to_subseq|].
    apply sorted_Forall, Forall_forall. intros l Hin. apply filter_In in Hin.
    destruct Hin as [_ Hin]. unfold Qlt_bool in Hin.
    apply negb_true_iff in Hin. apply Qnot_le_lt. intros Hle.
    apply Qle_bool_iff in Hle. congruence. }
  assert (Hs : sorted_by skill_difficulty
                 (run_query db (QHarder skill d limit))).
  { simpl. eapply subseq_StronglySorted; [apply limit_to_subseq|].
    apply sorted_sorted. }
  repeat split; try assumption.
  revert Hlt Hs. generalize (run_query db (QHarder skill d limit)) as l.
  induction l as [|a l IH]; intros Hlt Hs; [constructor|].
  inversion Hlt as [|? ? Ha Hl]; inversion Hs as [|? ? Hs' Hal]; subst.
  constructor; [apply IH; assumption|].
  rewrite Forall_forall in *. intros b Hb.
  specialize (Hal b Hb). specialize (Hl b Hb). simpl in Hal.
  unfold distance. rewrite !Qabs_pos.
  - apply Qplus_le_l. exact Hal.
  - apply Qlt_le_weak. rewrite <- (Qplus_opp_r d).
    apply Qplus_lt_l. exact Hl.
  - apply Qlt_le_weak. rewrite <- (Qplus_opp_r d).
    apply Qplus_lt_l. exact Ha.
Qed.

Lemma limit_to_length limit matches :
  0 <= limit -> Z.of_nat (length (limit_to limit matches)) <= limit.
Proof. intros H. unfold limit_to. rewrite length_firstn. lia. Qed.

(** ** One round of the difficulty-ranked selector *)

Lemma difficulty_candidates_reads fetch_result per_skill d mapping skill log :
  let exact :=
    remove_seen (in_mapping mapping)
      (fetch_result (QEqual skill d (per_skill * 2))) in
  let easier :=
    remove_seen (in_mapping mapping)
      (fetch_result (QEasier skill d per_skill)) in
  let harder :=
    remove_seen (in_mapping mapping)
      (fetch_result (QHarder skill d per_skill)) in
  difficulty_candidates fetch_result per_skill d mapping skill log =
    if shorter_than exact per_skill then
      if shorter_than (exact ++ easier) per_skill then
        (Ok (sorted (distance d) ((exact ++ easier) ++ harder)),
         log ++ [QEqual skill d (per_skill * 2); QEasier skill d per_skill;
                 QHarder skill d per_skill])
      else
        (Ok (sorted (distance d) (exact ++ easier)),
         log ++ [QEqual skill d (per_skill * 2); QEasier skill d per_skill])
    else (Ok exact, log ++ [QEqual skill d (per_skill * 2)]).
Proof.
  intros exact easier harder.
  unfold difficulty_candidates, bind, fetch, ret. fold exact.
  destruct (shorter_than exact per_skill); [|reflexivity].
  fold easier. destruct (shorter_than (exact ++ easier) per_skill).
  - fold harder. rewrite <- !app_assoc. reflexivity.
  - rewrite <- !app_assoc. reflexivity.
Qed.

Section DifficultyRounds.
Variable fetch_result : Query -> list Link.
Variable d : Q.

(** A property of one skill's candidates that survives leaving some out. *)
Variable good : string -> list Link -> Prop.
Hypothesis good_subseq :
  forall skill l l', good skill l -> subseq l' l -> good skill l'.
Hypothesis good_candidates :
  forall per_skill mapping skill log cands log',
    difficulty_candidates fetch_result per_skill d mapping skill log
      = (Ok cands, log') ->
    good skill cands.

Lemma difficulty_candidates_ok per_skill mapping skill log :
  exists cands reads,
    difficulty_candidates fetch_result per_skill d mapping skill log
      = (Ok cands, log ++ reads).
Proof.
  rewrite difficulty_candidates_reads.
  repeat match goal with |- context [if ?c then _ else _] => destruct c end;
    eauto.
Qed.

(** A round appends one block of new entries to the mapping. *)
Lemma difficulty_body_block per_skill mapping skill log :
  exists block log',
    difficulty_body fetch_result per_skill d mapping skill log
      = (Ok (mapping ++ block), log') /\
    (keyed mapping -> keyed (mapping ++ block)) /\
    good skill (map snd block) /\
    (0 <= per_skill -> Z.of_nat (length (map snd block)) <= per_skill).
Proof.
  destruct (difficulty_candidates_ok per_skill mapping skill log)
    as (cands & reads & E).
  destruct (merge_appends (slice_to cands per_skill) mapping)
    as (block & Eb & Hsub).
  exists block, (log ++ reads). unfold difficulty_body.
  rewrite (bind_ok _ _ _ _ _ E). unfold ret. rewrite Eb.
  split; [reflexivity|]. split; [|split].
  - intros Hk. rewrite <- Eb. apply merge_keyed, Hk.
  - eapply good_subseq; [eapply good_candidates, E|].
    eapply subseq_trans; [exact Hsub|apply subseq_slice_to].
  - intros Hq. pose proof (subseq_length _ _ Hsub).
    pose proof (slice_to_length cands per_skill Hq). lia.
Qed.

(** The whole call: the result is one block per entry of [skill_ids], in
    the order of the entries. *)
Lemma difficulty_selector_blocks total skill_ids :
  skill_ids <> [] ->
  (length skill_ids <= MAX_NUMBER_OF_SKILL_IDS)%nat ->
  exists per_skill res log blocks,
    question_count_per_skill total skill_ids = Ok per_skill /\
    run (get_question_skill_links_based_on_difficulty_equidistributed_by_skill
           fetch_result total skill_ids d) = (Ok res, log) /\
    res = concat blocks /\
    NoDup (map question_id res) /\
    Forall2 (fun skill block =>
               good skill block /\
               (0 <= per_skill -> Z.of_nat (length block) <= per_skill))
      skill_ids blocks.
Proof.
  intros Hne Hmax.
  destruct (quota_spec total skill_ids Hne) as (per_skill & Eq & _).
  pose (P := fun (pre : list string) (mapping : Mapping) =>
    keyed mapping /\
    exists blocks,
      values mapping = concat blocks /\
      Forall2 (fun skill block =>
                 good skill block /\
                 (0 <= per_skill -> Z.of_nat (length block) <= per_skill))
        pre blocks).
  destruct (for_each_inv (difficulty_body fetch_result per_skill d) P)
    with (xs := skill_ids) (pre := @nil string) (acc := @nil (string * Link))
         (log := @nil Query)
    as (mapping & log & E & Hk & blocks & Ev & HF).
  - intros pre acc x log [Hk (blocks & Ev & HF)].
    destruct (difficulty_body_block per_skill acc x log)
      as (block & log' & E & Hk' & Hg & Hlen).
    exists (acc ++ block), log'. split; [exact E|]. split; [exact (Hk' Hk)|].
    exists (blocks ++ [map snd block]). split.
    + unfold values in *. rewrite map_app, concat_app, Ev. simpl.
      rewrite app_nil_r. reflexivity.
    + apply Forall2_app; [exact HF|]. repeat constructor; assumption.
  - split; [split; constructor|]. exists []. split; constructor.
  - exists per_skill, (values mapping), log, blocks.
    split; [exact Eq|]. split; [|split; [exact Ev|split]].
    + unfold run,
        get_question_skill_links_based_on_difficulty_equidistributed_by_skill.
      apply Nat.leb_le in Hmax. rewrite Nat.ltb_antisym, Hmax.
      unfold lift. unfold bind at 1. rewrite Eq.
      change (negb true) with false. cbv beta iota.
      rewrite (bind_ok _ _ _ _ _ E). reflexivity.
    + apply keyed_values_NoDup, Hk.
    + exact HF.
Qed.

End DifficultyRounds.




(** ** One round of the equidistribution selector *)

Lemma equi_body_run fetch_result per_skill models existing skill log :
  let new_models :=
    remove_seen (in_list existing)
      (fetch_result (QBySkill skill (per_skill * 2))) in
  equi_body fetch_result per_skill (models, existing) skill log
  = (Ok (models ++ slice_to new_models per_skill,
         existing ++ map question_id new_models),
     log ++ [QBySkill skill (per_skill * 2)]).
Proof. reflexivity. Qed.


(** ** Model ids *)

Lemma get_model_id_inj : forall q1 q2 s1 s2,
  no_colon q1 = true -> no_colon q2 = true ->
  get_model_id q1 s1 = get_model_id q2 s2 -> q1 = q2 /\ s1 = s2.
Proof.
  unfold get_model_id.
  induction q1 as [|c1 q1 IH]; intros [|c2 q2] s1 s2 H1 H2 E; simpl in *.
  - injection E as ->. auto.
  - injection E as <- _. discriminate H2.
  - injection E as -> _. discriminate H1.
  - injection E as -> E. apply andb_true_iff in H1, H2.
    destruct (IH q2 s1 s2) as [-> ->]; tauto.
Qed.


(** * The equidistribution selector *)

(** Removing from the list while iterating over it passes over the element
    that follows a removed one: here both question ids are already seen, and
    the second candidate stays. *)
Example remove_seen_skips_next :
  remove_seen (in_list ["q1"; "q2"])
    [link "q1" "s2" (1#2); link "q2" "s2" (1#2)]
  = [link "q2" "s2" (1#2)].
Proof. reflexivity. Qed.

(** C1, on the code: for the valid input (total 4, skills s1 and s2) over a
    store where questions q1 and q2 are linked to both skills, the
    equidistribution selector returns the link of q2 twice, once for s1 and
    once for s2.  The deduplication pass for s2 removes the link of q1 and
    thereby skips the link of q2. *)
Theorem equidistributed_result_repeats_question :
  valid_input 4 ["s1"; "s2"] /\
  run (get_question_skill_links_equidistributed_by_skill
         (run_query db_shared) 4 ["s1"; "s2"])
  = (Ok [link "q1" "s1" (1#2); link "q2" "s1" (1#2); link "q2" "s2" (1#2)],
     [QBySkill "s1" 4; QBySkill "s2" 4]) /\
  ~ NoDup (map question_id
             [link "q1" "s1" (1#2); link "q2" "s1" (1#2);
              link "q2" "s2" (1#2)]).
Proof.
  split; [valid_input_tac|]. split; [reflexivity|].
  simpl. intros H. inversion H as [|? ? _ H']; subst.
  inversion H' as [|? ? Hnin _]; subst. apply Hnin. left. reflexivity.
Qed.

(** C2, on the code: for the valid input (total 2, skills s1 and s2) the
    quota is 1; q1 is selected for s1 and q2 is fetched for s1 but not
    selected.  The only candidate of s2, the link of q2, is discarded all the
    same, and the result holds the link of q1 alone. *)
Theorem equidistributed_discards_unselected_question :
  valid_input 2 ["s1"; "s2"] /\
  question_count_per_skill 2 ["s1"; "s2"] = Ok 1 /\
  run_query db_overfetch (QBySkill "s2" 2) = [link "q2" "s2" (1#2)] /\
  run (get_question_skill_links_equidistributed_by_skill
         (run_query db_overfetch) 2 ["s1"; "s2"])
  = (Ok [link "q1" "s1" (1#2)], [QBySkill "s1" 2; QBySkill "s2" 2]).
Proof.
  split; [valid_input_tac|]. repeat split; reflexivity.
Qed.

(** * The difficulty-ranked selector *)



(** ** Links of one skill in the result *)




Section Blocks.
Variable d : Q.



End Blocks.





(** * Creating a link *)




(** * Input validation *)

(** C6: with more than 20 skill ids both selectors raise the invalid-argument
    error at once: the log of store reads is empty, whatever the total and
    the requested difficulty. *)
Theorem too_many_skill_ids_raise_before_any_read
    (fetch_result : Query -> list Link) (total : Z) (skill_ids : list string)
    (d : Q) :
  (MAX_NUMBER_OF_SKILL_IDS < length skill_ids)%nat ->
  run (get_question_skill_links_equidistributed_by_skill
         fetch_result total skill_ids)
  = (Raise too_many_skill_ids, []) /\
  run (get_question_skill_links_based_on_difficulty_equidistributed_by_skill
         fetch_result total skill_ids d)
  = (Raise too_many_skill_ids, []).
Proof.
  intros H. apply Nat.ltb_lt in H.
  unfold run, get_question_skill_links_equidistributed_by_skill,
    get_question_skill_links_based_on_difficulty_equidistributed_by_skill.
  rewrite H. split; reflexivity.
Qed.

Lemma too_many_skill_ids_witness :
  (MAX_NUMBER_OF_SKILL_IDS < length twenty_one_skill_ids)%nat /\
  run (get_question_skill_links_equidistributed_by_skill
         (run_query db_scenario) 3 twenty_one_skill_ids)
  = (Raise too_many_skill_ids, []) /\
  run (get_question_skill_links_based_on_difficulty_equidistributed_by_skill
         (run_query db_scenario) 3 twenty_one_skill_ids (4#10))
  = (Raise too_many_skill_ids, []).
Proof.
  assert (H : (MAX_NUMBER_OF_SKILL_IDS < length twenty_one_skill_ids)%nat)
    by (unfold MAX_NUMBER_OF_SKILL_IDS; simpl; lia).
  split; [exact H|].
  exact (too_many_skill_ids_raise_before_any_read
           (run_query db_scenario) 3 twenty_one_skill_ids (4#10) H).
Defined.


(** * Quota and size of the result *)



(** * The three tiers of the difficulty-ranked selector *)

(** C8: in the round of one skill, the reads are the exact-difficulty fetch
    and possibly the easier and the harder fetch, both with limit
    [per_skill]; the easier fetch is among them exactly when the
    deduplicated exact-difficulty candidates are fewer than [per_skill], and
    the harder fetch exactly when, in addition, the candidates are still
    fewer than [per_skill] with the deduplicated easier ones appended.  The
    round reads nothing else. *)
Theorem tier_fetches_only_when_short
    (fetch_result : Query -> list Link) (per_skill : Z) (d : Q)
    (mapping : Mapping) (skill : string) (log : list Query) :
  let exact :=
    remove_seen (in_mapping mapping)
      (fetch_result (QEqual skill d (per_skill * 2))) in
  let easier :=
    remove_seen (in_mapping mapping)
      (fetch_result (QEasier skill d per_skill)) in
  exists cands reads,
    difficulty_candidates fetch_result per_skill d mapping skill log
      = (Ok cands, log ++ reads) /\
    snd (difficulty_body fetch_result per_skill d mapping skill log)
      = log ++ reads /\
    incl reads [QEqual skill d (per_skill * 2); QEasier skill d per_skill;
                QHarder skill d per_skill] /\
    (In (QEasier skill d per_skill) reads
     <-> Z.of_nat (length exact) < per_skill) /\
    (In (QHarder skill d per_skill) reads
     <-> Z.of_nat (length exact) < per_skill /\
         Z.of_nat (length (exact ++ easier)) < per_skill).
Proof.
  intros exact easier.
  pose proof (difficulty_candidates_reads fetch_result per_skill d mapping
                skill log) as E.
  cbv zeta in E. fold exact in E. fold easier in E.
  assert (Hbody : forall cands log',
            difficulty_candidates fetch_result per_skill d mapping skill log
              = (Ok cands, log') ->
            snd (difficulty_body fetch_result per_skill d mapping skill log)
              = log').
  { intros cands log' Ec. unfold difficulty_body.
    rewrite (bind_ok _ _ _ _ _ Ec). reflexivity. }
  unfold shorter_than in E.
  destruct (Z.of_nat (length exact) <? per_skill) eqn:E1;
    [destruct (Z.of_nat (length (exact ++ easier)) <? per_skill) eqn:E2|];
    rewrite ?Z.ltb_lt, ?Z.ltb_ge in *;
    eexists; eexists; (split; [exact E|]);
    (split; [apply (Hbody _ _ E)|]);
    (split; [intros q Hq; simpl in *; tauto|]);
    split; simpl; split;
    try (intros [H|[H|[H|[]]]]; try discriminate H);
    try (intros [H|[H|[]]]; try discriminate H);
    try (intros [H|[]]; try discriminate H);
    try tauto; try lia.
Qed.

(** * No question twice in the difficulty-ranked result *)

(** The deduplication pass of a tier can leave a seen candidate in place;
    the final merge still keeps it out. *)
Example difficulty_merge_covers_skipped_candidate :
  remove_seen (in_mapping [("q1", link "q1" "s1" (1#2));
                           ("q2", link "q2" "s1" (1#2))])
    (run_query db_shared (QEqual "s2" (1#2) 4))
  = [link "q2" "s2" (1#2)] /\
  fst (run (get_question_skill_links_based_on_difficulty_equidistributed_by_skill
              (run_query db_shared) 4 ["s1"; "s2"] (1#2)))
  = Ok [link "q1" "s1" (1#2); link "q2" "s1" (1#2)].
Proof. split; reflexivity. Qed.

(** C10: for a valid input the difficulty-ranked selector returns, and no two
    links of its result have the same question id, whatever the store
    answers to the queries. *)
Theorem difficulty_result_no_repeated_question
    (fetch_result : Query -> list Link) (total : Z) (skill_ids : list string)
    (d : Q) :
  valid_input total skill_ids ->
  exists res log,
    run (get_question_skill_links_based_on_difficulty_equidistributed_by_skill
           fetch_result total skill_ids d) = (Ok res, log) /\
    NoDup (map question_id res).
Proof.
  intros (Hne & Hmax & _).
  destruct (difficulty_selector_blocks fetch_result d (fun _ _ => True))
    with (total := total) (skill_ids := skill_ids)
    as (q & res & log & blocks & _ & E & _ & Hnd & _); auto.
  exists res, log. split; assumption.
Qed.

Lemma difficulty_result_no_repeated_question_witness :
  valid_input 4 ["s1"; "s2"] /\
  exists res log,
    run (get_question_skill_links_based_on_difficulty_equidistributed_by_skill
           (run_query db_shared) 4 ["s1"; "s2"] (1#2)) = (Ok res, log) /\
    NoDup (map question_id res).
Proof.
  assert (H : valid_input 4 ["s1"; "s2"]) by valid_input_tac.
  split; [exact H|].
  exact (difficulty_result_no_repeated_question
           (run_query db_shared) 4 ["s1"; "s2"] (1#2) H).
Defined.

(** * Further properties *)

(** ** The deduplication loop *)

Lemma link_eqb_refl (l : Link) : link_eqb l l = true.
Proof.
  unfold link_eqb. rewrite !String.eqb_refl. simpl.
  apply Qeq_bool_iff. reflexivity.
Qed.

Lemma link_eqb_id (a b : Link) : link_eqb a b = true -> id a = id b.
Proof.
  unfold link_eqb. rewrite !andb_true_iff. intros [[[H _] _] _].
  apply String.eqb_eq, H.
Qed.

Lemma list_remove_length_ge x lst :
  (length lst <= S (length (list_remove x lst)))%nat.
Proof.
  induction lst as [|y ys IH]; simpl; [lia|].
  destruct (link_eqb y x); simpl; lia.
Qed.

Lemma list_remove_length_in x lst :
  In x lst -> length lst = S (length (list_remove x lst)).
Proof.
  induction lst as [|y ys IH]; simpl; [intros []|].
  intros [->|Hin].
  - rewrite link_eqb_refl. reflexivity.
  - destruct (link_eqb y x); simpl; [reflexivity|]. rewrite <- IH; auto.
Qed.

Lemma remove_seen_loop_past_end seen fuel i lst :
  (length lst <= i)%nat -> remove_seen_loop seen fuel i lst = lst.
Proof.
  intros H. destruct fuel; simpl; [reflexivity|].
  apply nth_error_None in H. rewrite H. reflexivity.
Qed.

(** From index [i] on, the loop drops at most every other element. *)
Lemma remove_seen_loop_keeps_half seen : forall fuel i lst,
  (i <= length lst)%nat -> (length lst - i <= fuel)%nat ->
  (length lst + i <= 2 * length (remove_seen_loop seen fuel i lst) + 1)%nat.
Proof.
  induction fuel as [|fuel IH]; intros i lst Hi Hfuel; simpl; [lia|].
  destruct (nth_error lst i) as [model|] eqn:E.
  - assert (Hlt : (i < length lst)%nat) by (apply nth_error_Some; congruence).
    destruct (seen (question_id model)).
    + pose proof (list_remove_length_ge model lst) as Hge.
      pose proof (subseq_length _ _ (list_remove_subseq model lst)) as Hle.
      destruct (Nat.le_gt_cases (S i) (length (list_remove model lst)))
        as [Hin|Hout].
      * specialize (IH (S i) (list_remove model lst) Hin). lia.
      * rewrite remove_seen_loop_past_end by lia. lia.
    + specialize (IH (S i) lst). lia.
  - apply nth_error_None in E. lia.
Qed.

(** When every element is seen, the loop drops exactly every other one. *)
Lemma remove_seen_loop_all_seen seen : forall fuel i lst,
  Forall (fun l => seen (question_id l) = true) lst ->
  (i <= length lst)%nat -> (length lst - i <= fuel)%nat ->
  (2 * length (remove_seen_loop seen fuel i lst) <= length lst + i)%nat.
Proof.
  induction fuel as [|fuel IH]; intros i lst Hall Hi Hfuel; simpl; [lia|].
  destruct (nth_error lst i) as [model|] eqn:E.
  - assert (Hlt : (i < length lst)%nat) by (apply nth_error_Some; congruence).
    pose proof (nth_error_In _ _ E) as Hin.
    rewrite Forall_forall in Hall. rewrite (Hall model Hin).
    pose proof (list_remove_length_in model lst Hin) as Hlen.
    destruct (Nat.le_gt_cases (S i) (length (list_remove model lst)))
      as [Hle|Hout].
    + specialize (IH (S i) (list_remove model lst)).
      assert (Hall' : Forall (fun l => seen (question_id l) = true)
                        (list_remove model lst)).
      { eapply subseq_Forall; [apply list_remove_subseq|].
        apply Forall_forall. exact Hall. }
      specialize (IH Hall' Hle). lia.
    + rewrite remove_seen_loop_past_end by lia. lia.
  - apply nth_error_None in E. lia.
Qed.

(** X1: the deduplication loop never drops more than every other candidate: of
    [n] fetched candidates at least [n / 2] (rounded down) are left, whatever
    has been seen before. *)
Theorem remove_seen_keeps_half (seen : string -> bool) (lst : list Link) :
  (length lst / 2 <= length (remove_seen seen lst))%nat.
Proof.
  pose proof (remove_seen_loop_keeps_half seen (length lst) 0 lst) as H.
  unfold remove_seen. apply Nat.lt_succ_r.
  apply Nat.Div0.div_lt_upper_bound. lia.
Qed.

(** X2: when every fetched candidate has a question id that was seen before, the
    loop still leaves half of them (rounded down) in the list. *)
Theorem remove_seen_all_seen_leaves_half (seen : string -> bool)
    (lst : list Link) :
  Forall (fun l => seen (question_id l) = true) lst ->
  length (remove_seen seen lst) = (length lst / 2)%nat.
Proof.
  intros Hall.
  pose proof (remove_seen_loop_keeps_half seen (length lst) 0 lst) as Hlo.
  pose proof (remove_seen_loop_all_seen seen (length lst) 0 lst Hall) as Hhi.
  unfold remove_seen.
  apply (Nat.div_unique _ 2 _
           (length lst - 2 * length (remove_seen_loop seen (length lst) 0 lst)));
    lia.
Qed.

Lemma remove_seen_all_seen_witness :
  Forall (fun l => in_list ["q1"; "q2"] (question_id l) = true)
    [link "q1" "s2" (1#2); link "q2" "s2" (1#2)] /\
  length (remove_seen (in_list ["q1"; "q2"])
            [link "q1" "s2" (1#2); link "q2" "s2" (1#2)])
  = (length [link "q1" "s2" (1#2); link "q2" "s2" (1#2)] / 2)%nat.
Proof.
  assert (H : Forall (fun l => in_list ["q1"; "q2"] (question_id l) = true)
                [link "q1" "s2" (1#2); link "q2" "s2" (1#2)])
    by (repeat constructor).
  split; [exact H|].
  exact (remove_seen_all_seen_leaves_half (in_list ["q1"; "q2"])
           [link "q1" "s2" (1#2); link "q2" "s2" (1#2)] H).
Defined.

Lemma list_remove_here x : forall pre rest,
  NoDup (map id (pre ++ x :: rest)) ->
  list_remove x (pre ++ x :: rest) = pre ++ rest.
Proof.
  induction pre as [|p pre IH]; intros rest Hnd; simpl.
  - rewrite link_eqb_refl. reflexivity.
  - simpl in Hnd. inversion Hnd as [|? ? Hnin Hnd']; subst.
    destruct (link_eqb p x) eqn:E.
    + exfalso. apply Hnin. apply link_eqb_id in E. rewrite E.
      rewrite map_app. apply in_or_app. right. left. reflexivity.
    + rewrite IH by assumption. reflexivity.
Qed.

Lemma nth_error_middle {A} (pre : list A) x rest :
  nth_error (pre ++ x :: rest) (length pre) = Some x.
Proof.
  rewrite nth_error_app2 by lia. rewrite Nat.sub_diag. reflexivity.
Qed.

Lemma remove_seen_loop_skipping seen : forall fuel pre rest,
  NoDup (map id (pre ++ rest)) -> (length rest <= fuel)%nat ->
  remove_seen_loop seen fuel (length pre) (pre ++ rest)
  = pre ++ skipping_filter seen rest.
Proof.
  induction fuel as [|fuel IH]; intros pre rest Hnd Hfuel.
  - destruct rest; [reflexivity|simpl in Hfuel; lia].
  - destruct rest as [|x rest].
    + apply remove_seen_loop_past_end. rewrite app_nil_r. lia.
    + cbn [remove_seen_loop]. rewrite nth_error_middle.
      cbn [skipping_filter]. simpl in Hfuel.
      destruct (seen (question_id x)).
      * rewrite list_remove_here by assumption.
        assert (Hnd' : NoDup (map id (pre ++ rest))).
        { rewrite map_app in *. simpl in Hnd.
          apply NoDup_remove_1 in Hnd. exact Hnd. }
        destruct rest as [|y rest].
        -- apply remove_seen_loop_past_end. rewrite app_nil_r. lia.
        -- replace (pre ++ y :: rest) with ((pre ++ [y]) ++ rest)
             by (rewrite <- app_assoc; reflexivity).
           replace (S (length pre)) with (length (pre ++ [y]))
             by (rewrite length_app; simpl; lia).
           rewrite IH.
           ++ rewrite <- app_assoc. reflexivity.
           ++ rewrite <- app_assoc. exact Hnd'.
           ++ simpl in Hfuel. lia.
      * replace (pre ++ x :: rest) with ((pre ++ [x]) ++ rest)
          by (rewrite <- app_assoc; reflexivity).
        replace (S (length pre)) with (length (pre ++ [x]))
          by (rewrite length_app; simpl; lia).
        rewrite IH.
        -- rewrite <- app_assoc. reflexivity.
        -- rewrite <- app_assoc. exact Hnd.
        -- lia.
Qed.

(** X3: on fetched entities with pairwise different ids the loop computes the
    skipping filter: a seen candidate is dropped, and the candidate that
    follows a dropped one is kept without being examined. *)
Theorem remove_seen_is_skipping_filter (seen : string -> bool)
    (lst : list Link) :
  NoDup (map id lst) -> remove_seen seen lst = skipping_filter seen lst.
Proof.
  intros Hnd. unfold remove_seen.
  exact (remove_seen_loop_skipping seen (length lst) [] lst Hnd (le_n _)).
Qed.

Lemma remove_seen_is_skipping_filter_witness :
  NoDup (map id (run_query db_shared (QBySkill "s2" 4))) /\
  remove_seen (in_list ["q1"; "q2"]) (run_query db_shared (QBySkill "s2" 4))
  = skipping_filter (in_list ["q1"; "q2"])
      (run_query db_shared (QBySkill "s2" 4)).
Proof.
  assert (H : NoDup (map id (run_query db_shared (QBySkill "s2" 4)))).
  { simpl. constructor; [simpl; intros [E|[]]; discriminate E|].
    constructor; [intros []|constructor]. }
  split; [exact H|].
  exact (remove_seen_is_skipping_filter (in_list ["q1"; "q2"])
           (run_query db_shared (QBySkill "s2" 4)) H).
Defined.

Lemma skipping_filter_no_adjacent seen : forall n lst,
  (length lst <= n)%nat ->
  no_adjacent_seen seen lst ->
  skipping_filter seen lst
  = filter (fun l => negb (seen (question_id l))) lst.
Proof.
  induction n as [|n IH]; intros lst Hlen Hadj.
  - destruct lst; [reflexivity|simpl in Hlen; lia].
  - destruct lst as [|x rest]; [reflexivity|].
    simpl in Hlen. cbn [skipping_filter filter].
    destruct Hadj as [Hx Hrest].
    destruct (seen (question_id x)) eqn:Ex; simpl negb; cbv iota.
    + destruct rest as [|y rest']; [reflexivity|].
      cbn [filter]. destruct (seen (question_id y)) eqn:Ey.
      * exfalso. apply Hx. split; reflexivity.
      * simpl negb. cbv iota. f_equal.
        apply IH; [simpl in Hlen; lia|]. destruct Hrest as [_ H]. exact H.
    + f_equal. apply IH; [lia|assumption].
Qed.

(** X4: the deduplication is complete when no fetched candidate that is seen
    stands directly behind another seen one: on entities with pairwise
    different ids the loop then drops exactly the seen candidates. *)
Theorem remove_seen_exact_without_adjacent_seen (seen : string -> bool)
    (lst : list Link) :
  NoDup (map id lst) ->
  no_adjacent_seen seen lst ->
  remove_seen seen lst = filter (fun l => negb (seen (question_id l))) lst.
Proof.
  intros Hnd Hadj.
  pose proof (remove_seen_loop_skipping seen (length lst) [] lst Hnd (le_n _))
    as E.
  simpl in E. unfold remove_seen. rewrite E.
  apply (skipping_filter_no_adjacent seen (length lst)); auto.
Qed.

Lemma remove_seen_exact_witness :
  NoDup (map id (run_query db_overfetch (QBySkill "s1" 2))) /\
  no_adjacent_seen (in_list ["q2"])
    (run_query db_overfetch (QBySkill "s1" 2)) /\
  remove_seen (in_list ["q2"]) (run_query db_overfetch (QBySkill "s1" 2))
  = filter (fun l => negb (in_list ["q2"] (question_id l)))
      (run_query db_overfetch (QBySkill "s1" 2)).
Proof.
  assert (H1 : NoDup (map id (run_query db_overfetch (QBySkill "s1" 2)))).
  { simpl. constructor; [simpl; intros [E|[]]; discriminate E|].
    constructor; [intros []|constructor]. }
  assert (H2 : no_adjacent_seen (in_list ["q2"])
                 (run_query db_overfetch (QBySkill "s1" 2))).
  { simpl. repeat split. intros [E _]. discriminate E. }
  split; [exact H1|]. split; [exact H2|].
  exact (remove_seen_exact_without_adjacent_seen (in_list ["q2"])
           (run_query db_overfetch (QBySkill "s1" 2)) H1 H2).
Defined.

Lemma remove_seen_loop_nothing_seen seen : forall fuel i lst,
  Forall (fun l => seen (question_id l) = false) lst ->
  remove_seen_loop seen fuel i lst = lst.
Proof.
  induction fuel as [|fuel IH]; intros i lst Hall; simpl; [reflexivity|].
  destruct (nth_error lst i) as [model|] eqn:E; [|reflexivity].
  pose proof (nth_error_In _ _ E) as Hin.
  rewrite Forall_forall in Hall. rewrite (Hall model Hin).
  apply IH. apply Forall_forall. exact Hall.
Qed.

Lemma remove_seen_nothing_seen seen lst :
  Forall (fun l => seen (question_id l) = false) lst ->
  remove_seen seen lst = lst.
Proof. apply remove_seen_loop_nothing_seen. Qed.

(** ** Whole runs of the equidistribution selector *)

(** [for_each_inv] with the log of reads in the invariant. *)
Lemma for_each_inv_log {A S} (body : S -> A -> M S)
    (P : list A -> S -> list Query -> Prop) :
  (forall pre acc x log, P pre acc log ->
     exists acc' log',
       body acc x log = (Ok acc', log') /\ P (pre ++ [x]) acc' log') ->
  forall xs pre acc log, P pre acc log ->
    exists acc' log',
      for_each body xs acc log = (Ok acc', log') /\ P (pre ++ xs) acc' log'.
Proof.
  intros Hbody. induction xs as [|x xs IH]; intros pre acc log HP; simpl.
  - exists acc, log. rewrite app_nil_r. split; [reflexivity|assumption].
  - destruct (Hbody pre acc x log HP) as (acc1 & log1 & E1 & HP1).
    destruct (IH (pre ++ [x]) acc1 log1 HP1) as (acc2 & log2 & E2 & HP2).
    exists acc2, log2. rewrite (bind_ok _ _ _ _ _ E1).
    rewrite <- app_assoc in HP2. split; assumption.
Qed.

Lemma equi_selector_run fetch_result total skill_ids :
  skill_ids <> [] ->
  (length skill_ids <= MAX_NUMBER_OF_SKILL_IDS)%nat ->
  exists per_skill res blocks,
    question_count_per_skill total skill_ids = Ok per_skill /\
    run (get_question_skill_links_equidistributed_by_skill
           fetch_result total skill_ids)
    = (Ok res, map (fun skill => QBySkill skill (per_skill * 2)) skill_ids) /\
    res = concat blocks /\
    Forall2 (fun skill block =>
               subseq block (fetch_result (QBySkill skill (per_skill * 2))) /\
               (0 <= per_skill -> Z.of_nat (length block) <= per_skill))
      skill_ids blocks.
Proof.
  intros Hne Hmax.
  destruct (quota_spec total skill_ids Hne) as (per_skill & Eq & _).
  pose (P := fun (pre : list string) (st : equi_state) (log : list Query) =>
    log = map (fun skill => QBySkill skill (per_skill * 2)) pre /\
    exists blocks,
      fst st = concat blocks /\
      Forall2 (fun skill block =>
                 subseq block (fetch_result (QBySkill skill (per_skill * 2))) /\
                 (0 <= per_skill -> Z.of_nat (length block) <= per_skill))
        pre blocks).
  destruct (for_each_inv_log (equi_body fetch_result per_skill) P)
    with (xs := skill_ids) (pre := @nil string)
         (acc := (@nil Link, @nil string)) (log := @nil Query)
    as (st & log & E & Hlog & blocks & Hres & HF).
  - intros pre [models existing] x log [Hlog (blocks & Hres & HF)].
    rewrite equi_body_run. eexists; eexists. split; [reflexivity|]. split.
    + rewrite map_app, Hlog. reflexivity.
    + exists (blocks ++
              [slice_to (remove_seen (in_list existing)
                           (fetch_result (QBySkill x (per_skill * 2))))
                 per_skill]).
      cbn [fst] in *. split.
      * rewrite concat_app, Hres. simpl. rewrite app_nil_r. reflexivity.
      * apply Forall2_app; [exact HF|]. constructor; [|constructor]. split.
        -- eapply subseq_trans; [apply subseq_slice_to|apply remove_seen_subseq].
        -- apply slice_to_length.
  - split; [reflexivity|]. exists []. split; constructor.
  - exists per_skill, (fst st), blocks.
    split; [exact Eq|]. split; [|split; [exact Hres|exact HF]].
    unfold run, get_question_skill_links_equidistributed_by_skill.
    apply Nat.leb_le in Hmax. rewrite Nat.ltb_antisym, Hmax.
    unfold lift. unfold bind at 1. rewrite Eq.
    change (negb true) with false. cbv beta iota.
    rewrite (bind_ok _ _ _ _ _ E). simpl in Hlog. rewrite Hlog. reflexivity.
Qed.



(** X6: the result of the equidistribution selector follows the order of
    [skill_ids]: it is one block per entry, and the block of a skill is taken
    from the links [get_models_by_skill_id] lists for that skill, in their
    order, at most quota many.  In particular every returned link is stored
    and belongs to a requested skill. *)
Theorem equidistributed_result_grouped_by_skill
    (db : Datastore) (total : Z) (skill_ids : list string) :
  valid_input total skill_ids ->
  exists per_skill res log blocks,
    question_count_per_skill total skill_ids = Ok per_skill /\
    run (get_question_skill_links_equidistributed_by_skill
           (run_query db) total skill_ids) = (Ok res, log) /\
    res = concat blocks /\
    Forall2 (fun skill block =>
               subseq block (get_models_by_skill_id db skill) /\
               Z.of_nat (length block) <= per_skill)
      skill_ids blocks /\
    (forall l, In l res -> In l db /\ In (skill_id l) skill_ids).
Proof.
  intros (Hne & Hmax & Htotal).
  destruct (equi_selector_run (run_query db) total skill_ids Hne Hmax)
    as (per_skill & res & blocks & Eq & E & Hres & HF).
  pose proof (quota_nonneg _ _ _ Htotal Eq) as Hq.
  assert (HF' : Forall2 (fun skill block =>
                   subseq block (get_models_by_skill_id db skill) /\
                   Z.of_nat (length block) <= per_skill) skill_ids blocks).
  { eapply Forall2_impl; [|exact HF]. intros skill block [Hsub Hlen].
    split; [|auto]. eapply subseq_trans; [exact Hsub|].
    apply limit_to_subseq. }
  exists per_skill, res,
    (map (fun skill => QBySkill skill (per_skill * 2)) skill_ids), blocks.
  split; [exact Eq|]. split; [exact E|]. split; [exact Hres|].
  split; [exact HF'|].
  rewrite Hres. clear - HF'. induction HF' as [|s b ss bs [Hb _] _ IH].
  - intros l [].
  - intros l Hin. simpl in Hin. apply in_app_or in Hin.
    destruct Hin as [Hin|Hin].
    + apply (subseq_In _ _ _ Hb) in Hin. unfold get_models_by_skill_id in Hin.
      apply filter_In in Hin. destruct Hin as [Hdb Hs].
      apply String.eqb_eq in Hs. split; [exact Hdb|]. left. auto.
    + destruct (IH l Hin) as [H1 H2]. split; [exact H1|]. right. exact H2.
Qed.

Lemma equidistributed_result_grouped_witness :
  valid_input 3 ["s1"; "s2"] /\
  exists per_skill res log blocks,
    question_count_per_skill 3 ["s1"; "s2"] = Ok per_skill /\
    run (get_question_skill_links_equidistributed_by_skill
           (run_query db_scenario) 3 ["s1"; "s2"]) = (Ok res, log) /\
    res = concat blocks /\
    Forall2 (fun skill block =>
               subseq block (get_models_by_skill_id db_scenario skill) /\
               Z.of_nat (length block) <= per_skill)
      ["s1"; "s2"] blocks /\
    (forall l, In l res -> In l db_scenario /\ In (skill_id l) ["s1"; "s2"]).
Proof.
  assert (H : valid_input 3 ["s1"; "s2"]) by valid_input_tac.
  split; [exact H|].
  exact (equidistributed_result_grouped_by_skill db_scenario 3 ["s1"; "s2"] H).
Defined.








(** [for_each_inv] for a body that is only known to behave at the entries of
    the list the loop runs over. *)
Lemma for_each_inv_at {A S} (body : S -> A -> M S) (all : list A)
    (P : list A -> S -> Prop) :
  (forall pre x suf acc log, all = pre ++ x :: suf -> P pre acc ->
     exists acc' log', body acc x log = (Ok acc', log') /\ P (pre ++ [x]) acc') ->
  forall xs pre acc log, all = pre ++ xs -> P pre acc ->
    exists acc' log', for_each body xs acc log = (Ok acc', log') /\ P all acc'.
Proof.
  intros Hbody. induction xs as [|x xs IH]; intros pre acc log Hall HP; simpl.
  - exists acc, log. rewrite app_nil_r in Hall. subst all.
    split; [reflexivity|assumption].
  - destruct (Hbody pre x xs acc log Hall HP) as (acc1 & log1 & E1 & HP1).
    destruct (IH (pre ++ [x]) acc1 log1) as (acc2 & log2 & E2 & HP2).
    + rewrite <- app_assoc. exact Hall.
    + exact HP1.
    + exists acc2, log2. rewrite (bind_ok _ _ _ _ _ E1). split; assumption.
Qed.

Lemma in_list_spec xs x : in_list xs x = true <-> In x xs.
Proof.
  unfold in_list. rewrite existsb_exists. split.
  - intros (y & Hin & E). apply String.eqb_eq in E. subst. exact Hin.
  - intros Hin. exists x. split; [exact Hin|apply String.eqb_refl].
Qed.

Lemma NoDup_map_injective {A B} (f : A -> B) : forall l a b,
  NoDup (map f l) -> In a l -> In b l -> f a = f b -> a = b.
Proof.
  induction l as [|x l IH]; intros a b Hnd Ha Hb E; [destruct Ha|].
  simpl in Hnd. inversion Hnd as [|? ? Hnin Hnd']; subst.
  destruct Ha as [->|Ha], Hb as [->|Hb]; auto.
  - exfalso. apply Hnin. rewrite E. apply in_map, Hb.
  - exfalso. apply Hnin. rewrite <- E. apply in_map, Ha.
Qed.

Lemma subseq_map {A B} (f : A -> B) (l1 l2 : list A) :
  subseq l1 l2 -> subseq (map f l1) (map f l2).
Proof. induction 1; simpl; constructor; assumption. Qed.

Lemma subseq_NoDup {A} (l1 l2 : list A) :
  subseq l1 l2 -> NoDup l2 -> NoDup l1.
Proof.
  induction 1 as [|x l1 l2 Hsub IH|x l1 l2 Hsub IH]; intros Hnd; auto.
  - inversion Hnd; auto.
  - inversion Hnd as [|? ? Hnin Hnd']; subst. constructor; auto.
    intros Hin. apply Hnin. eapply subseq_In; eassumption.
Qed.

Lemma filter_subseq_filter {A} (f g : A -> bool) (l : list A) :
  (forall a, f a = true -> g a = true) ->
  subseq (filter f l) (filter g l).
Proof.
  intros Hfg. induction l as [|x l IH]; simpl; [constructor|].
  destruct (f x) eqn:Ef.
  - rewrite (Hfg x Ef). apply subseq_keep, IH.
  - destruct (g x); [apply subseq_skip, IH|exact IH].
Qed.

(** X9: the equidistribution selector does return each question at most once
    when no skill id is repeated and, among the stored links of the requested
    skills, no two share a question id. *)
Theorem equidistributed_no_repeat_without_shared_question
    (db : Datastore) (total : Z) (skill_ids : list string) :
  valid_input total skill_ids ->
  NoDup skill_ids ->
  NoDup (map question_id
           (filter (fun l => in_list skill_ids (skill_id l)) db)) ->
  exists res log,
    run (get_question_skill_links_equidistributed_by_skill
           (run_query db) total skill_ids) = (Ok res, log) /\
    NoDup (map question_id res).
Proof.
  intros (Hne & Hmax & Htotal) Hskills Hshared.
  set (F := filter (fun l => in_list skill_ids (skill_id l)) db) in *.
  destruct (quota_spec total skill_ids Hne) as (per_skill & Eq & _).
  assert (HinF : forall l, In l db -> In (skill_id l) skill_ids -> In l F).
  { intros l Hdb Hs. apply filter_In. split; [exact Hdb|].
    apply in_list_spec, Hs. }
  pose (P := fun (pre : list string) (st : equi_state) =>
    NoDup (map question_id (fst st)) /\
    (forall l, In l (fst st) -> In l db /\ In (skill_id l) pre) /\
    (forall q, In q (snd st) ->
       exists l, In l db /\ In (skill_id l) pre /\ question_id l = q)).
  destruct (for_each_inv_at (equi_body (run_query db) per_skill) skill_ids P)
    with (xs := skill_ids) (pre := @nil string)
         (acc := (@nil Link, @nil string)) (log := @nil Query)
    as (st & log & E & Hnd & _).
  - intros pre x suf [models existing] log Hsplit (Hnd & Hmodels & Hexisting).
    cbn [fst snd] in *.
    assert (Hx : ~ In x pre).
    { rewrite Hsplit in Hskills. apply NoDup_remove_2 in Hskills.
      intros Hin. apply Hskills. apply in_or_app. left. exact Hin. }
    assert (Hpre : forall s, In s pre -> In s skill_ids).
    { intros s Hs. rewrite Hsplit. apply in_or_app. left. exact Hs. }
    assert (Hxin : In x skill_ids).
    { rewrite Hsplit. apply in_or_app. right. left. reflexivity. }
    set (fetched := run_query db (QBySkill x (per_skill * 2))).
    assert (Hfetched : forall l, In l fetched -> In l db /\ skill_id l = x).
    { intros l Hin. unfold fetched in Hin. cbn [run_query] in Hin.
      apply (subseq_In _ _ _ (limit_to_subseq _ _)) in Hin.
      apply filter_In in Hin. destruct Hin as [Hdb Hs].
      apply String.eqb_eq in Hs. auto. }
    assert (Hunseen : Forall (fun l => in_list existing (question_id l) = false)
                        fetched).
    { apply Forall_forall. intros l Hin.
      destruct (in_list existing (question_id l)) eqn:Eseen; [|reflexivity].
      exfalso. apply in_list_spec in Eseen.
      destruct (Hexisting _ Eseen) as (l' & Hdb' & Hs' & Hq').
      destruct (Hfetched l Hin) as [Hdb Hs].
      assert (l' = l).
      { apply (NoDup_map_injective question_id F); auto.
        apply HinF; [exact Hdb|]. rewrite Hs. exact Hxin. }
      subst l'. apply Hx. rewrite <- Hs. exact Hs'. }
    rewrite equi_body_run. fold fetched.
    rewrite (remove_seen_nothing_seen _ _ Hunseen).
    eexists; eexists. split; [reflexivity|]. unfold P. cbn [fst snd].
    assert (Hblock : forall l, In l (slice_to fetched per_skill) ->
                       In l db /\ skill_id l = x).
    { intros l Hin. apply Hfetched.
      eapply subseq_In; [apply subseq_slice_to|exact Hin]. }
    split; [|split].
    + rewrite map_app. apply NoDup_app.
      * exact Hnd.
      * apply (subseq_NoDup _ (map question_id F)); [|exact Hshared].
        apply subseq_map.
        eapply subseq_trans; [apply subseq_slice_to|].
        eapply subseq_trans; [apply limit_to_subseq|].
        unfold with_skill, F. apply filter_subseq_filter.
        intros a Ha. apply String.eqb_eq in Ha. apply in_list_spec.
        rewrite Ha. exact Hxin.
      * intros k Hk1 Hk2. apply in_map_iff in Hk1, Hk2.
        destruct Hk1 as (l1 & E1 & Hin1). destruct Hk2 as (l2 & E2 & Hin2).
        destruct (Hmodels l1 Hin1) as [Hdb1 Hs1].
        destruct (Hblock l2 Hin2) as [Hdb2 Hs2].
        assert (l1 = l2).
        { apply (NoDup_map_injective question_id F); auto; [|congruence].
          apply HinF; [exact Hdb2|]. rewrite Hs2. exact Hxin. }
        subst l2. apply Hx. rewrite <- Hs2. exact Hs1.
    + intros l Hin. apply in_app_or in Hin. destruct Hin as [Hin|Hin].
      * destruct (Hmodels l Hin) as [H1 H2]. split; [exact H1|].
        apply in_or_app. left. exact H2.
      * destruct (Hblock l Hin) as [H1 H2]. split; [exact H1|].
        apply in_or_app. right. left. auto.
    + intros q Hin. apply in_app_or in Hin. destruct Hin as [Hin|Hin].
      * destruct (Hexisting q Hin) as (l & H1 & H2 & H3).
        exists l. split; [exact H1|]. split; [|exact H3].
        apply in_or_app. left. exact H2.
      * apply in_map_iff in Hin. destruct Hin as (l & H3 & Hin).
        destruct (Hfetched l Hin) as [H1 H2].
        exists l. split; [exact H1|]. split; [|exact H3].
        apply in_or_app. right. left. auto.
  - reflexivity.
  - unfold P. cbn [fst snd]. split; [constructor|].
    split; [intros l []|intros q []].
  - exists (fst st), log. split; [|exact Hnd].
    unfold run, get_question_skill_links_equidistributed_by_skill.
    apply Nat.leb_le in Hmax. rewrite Nat.ltb_antisym, Hmax.
    unfold lift. unfold bind at 1. rewrite Eq.
    change (negb true) with false. cbv beta iota.
    rewrite (bind_ok _ _ _ _ _ E). reflexivity.
Qed.

Lemma equidistributed_no_repeat_witness :
  valid_input 3 ["s1"; "s2"] /\
  NoDup ["s1"; "s2"] /\
  NoDup (map question_id
           (filter (fun l => in_list ["s1"; "s2"] (skill_id l)) db_scenario)) /\
  exists res log,
    run (get_question_skill_links_equidistributed_by_skill
           (run_query db_scenario) 3 ["s1"; "s2"]) = (Ok res, log) /\
    NoDup (map question_id res).
Proof.
  assert (H1 : valid_input 3 ["s1"; "s2"]) by valid_input_tac.
  assert (H2 : NoDup ["s1"; "s2"]).
  { constructor; [simpl; intros [E|[]]; discriminate E|].
    constructor; [intros []|constructor]. }
  assert (H3 : NoDup (map question_id
                 (filter (fun l => in_list ["s1"; "s2"] (skill_id l))
                    db_scenario))).
  { simpl.
    repeat (constructor;
            [simpl; intros H;
             repeat (destruct H as [H|H]; [discriminate H|]); exact H|]).
    constructor. }
  split; [exact H1|]. split; [exact H2|]. split; [exact H3|].
  exact (equidistributed_no_repeat_without_shared_question
           db_scenario 3 ["s1"; "s2"] H1 H2 H3).
Defined.

(** ** Whole runs of the difficulty-ranked selector *)

Lemma difficulty_candidates_Forall fetch_result (P : Link -> Prop)
    per_skill d mapping skill log cands log' :
  (forall q, query_skill q = skill -> Forall P (fetch_result q)) ->
  difficulty_candidates fetch_result per_skill d mapping skill log
    = (Ok cands, log') ->
  Forall P cands.
Proof.
  intros Hfetch. rewrite difficulty_candidates_reads.
  assert (Hkept : forall q, query_skill q = skill ->
            Forall P (remove_seen (in_mapping mapping) (fetch_result q))).
  { intros q Hq. eapply subseq_Forall; [apply remove_seen_subseq|auto]. }
  destruct (shorter_than _ per_skill);
    [destruct (shorter_than _ per_skill)|];
    intros E; injection E as <- _.
  - apply sorted_Forall. repeat (apply Forall_app; split).
    + exact (Hkept (QEqual skill d (per_skill * 2)) eq_refl).
    + exact (Hkept (QEasier skill d per_skill) eq_refl).
    + exact (Hkept (QHarder skill d per_skill) eq_refl).
  - apply sorted_Forall. apply Forall_app; split.
    + exact (Hkept (QEqual skill d (per_skill * 2)) eq_refl).
    + exact (Hkept (QEasier skill d per_skill) eq_refl).
  - exact (Hkept (QEqual skill d (per_skill * 2)) eq_refl).
Qed.

Lemma run_query_stored db q :
  Forall (fun l => In l db /\ skill_id l = query_skill q) (run_query db q).
Proof.
  pose proof (run_query_skill db q) as Hskill.
  assert (Hin : Forall (fun l => In l db) (run_query db q)).
  { assert (Hws : forall skill, Forall (fun l => In l db) (with_skill skill db)).
    { intros skill. apply Forall_forall. intros l Hl.
      apply filter_In in Hl. apply Hl. }
    destruct q; simpl;
      (eapply subseq_Forall; [apply limit_to_subseq|]).
    - apply Hws.
    - eapply subseq_Forall; [apply filter_subseq|apply Hws].
    - apply sorted_Forall.
      eapply subseq_Forall; [apply filter_subseq|apply Hws].
    - apply sorted_Forall.
      eapply subseq_Forall; [apply filter_subseq|apply Hws]. }
  rewrite Forall_forall in *. intros l Hl. split; auto.
Qed.

(** X10: every link the difficulty-ranked selector returns is a stored link of
    one of the requested skills. *)
Theorem difficulty_result_from_store
    (db : Datastore) (total : Z) (skill_ids : list string) (d : Q) :
  valid_input total skill_ids ->
  exists res log,
    run (get_question_skill_links_based_on_difficulty_equidistributed_by_skill
           (run_query db) total skill_ids d) = (Ok res, log) /\
    (forall l, In l res -> In l db /\ In (skill_id l) skill_ids).
Proof.
  intros (Hne & Hmax & _).
  destruct (difficulty_selector_blocks (run_query db) d
              (fun skill block =>
                 Forall (fun l => In l db /\ skill_id l = skill) block))
    with (total := total) (skill_ids := skill_ids)
    as (per_skill & res & log & blocks & _ & E & Hres & _ & HF); auto.
  - intros skill l l' H Hsub. eapply subseq_Forall; eassumption.
  - intros per_skill mapping skill log cands log' E.
    eapply difficulty_candidates_Forall; [|exact E].
    intros q <-. apply run_query_stored.
  - exists res, log. split; [exact E|]. rewrite Hres. clear - HF.
    induction HF as [|s b ss bs [Hb _] _ IH].
    + intros l [].
    + intros l Hin. simpl in Hin. apply in_app_or in Hin.
      destruct Hin as [Hin|Hin].
      * rewrite Forall_forall in Hb. destruct (Hb l Hin) as [H1 H2].
        split; [exact H1|]. left. auto.
      * destruct (IH l Hin) as [H1 H2]. split; [exact H1|]. right. exact H2.
Qed.

Lemma difficulty_result_from_store_witness :
  valid_input 3 ["s1"; "s2"] /\
  exists res log,
    run (get_question_skill_links_based_on_difficulty_equidistributed_by_skill
           (run_query db_scenario) 3 ["s1"; "s2"] (4#10)) = (Ok res, log) /\
    (forall l, In l res -> In l db_scenario /\ In (skill_id l) ["s1"; "s2"]).
Proof.
  assert (H : valid_input 3 ["s1"; "s2"]) by valid_input_tac.
  split; [exact H|].
  exact (difficulty_result_from_store db_scenario 3 ["s1"; "s2"] (4#10) H).
Defined.




(** X12: when the exact-difficulty query of a skill comes back full (twice the
    quota), the round reads nothing further and its candidates are exact
    matches only, even if every one of them is a question chosen before:
    at least half of a full answer is left by the deduplication loop. *)
Theorem full_exact_answer_ends_round
    (fetch_result : Query -> list Link) (per_skill : Z) (d : Q)
    (mapping : Mapping) (skill : string) (log : list Query) :
  per_skill * 2
    <= Z.of_nat (length (fetch_result (QEqual skill d (per_skill * 2)))) ->
  difficulty_candidates fetch_result per_skill d mapping skill log
  = (Ok (remove_seen (in_mapping mapping)
           (fetch_result (QEqual skill d (per_skill * 2)))),
     log ++ [QEqual skill d (per_skill * 2)]).
Proof.
  intros Hfull. rewrite difficulty_candidates_reads.
  set (fetched := fetch_result (QEqual skill d (per_skill * 2))) in *.
  pose proof (remove_seen_loop_keeps_half (in_mapping mapping)
                (length fetched) 0 fetched) as Hhalf.
  fold (remove_seen (in_mapping mapping) fetched) in Hhalf.
  unfold shorter_than.
  destruct (Z.of_nat (length (remove_seen (in_mapping mapping) fetched))
            <? per_skill) eqn:E; [|reflexivity].
  apply Z.ltb_lt in E. lia.
Qed.

Lemma full_exact_answer_witness :
  1 * 2 <= Z.of_nat (length (run_query db_shared (QEqual "s2" (1#2) (1 * 2)))) /\
  difficulty_candidates (run_query db_shared) 1 (1#2)
    [("q1", link "q1" "s1" (1#2)); ("q2", link "q2" "s1" (1#2))] "s2" []
  = (Ok (remove_seen
           (in_mapping [("q1", link "q1" "s1" (1#2));
                        ("q2", link "q2" "s1" (1#2))])
           (run_query db_shared (QEqual "s2" (1#2) (1 * 2)))),
     [] ++ [QEqual "s2" (1#2) (1 * 2)]).
Proof.
  assert (H : 1 * 2 <= Z.of_nat (length (run_query db_shared
                                           (QEqual "s2" (1#2) (1 * 2)))))
    by (vm_compute; discriminate).
  split; [exact H|].
  exact (full_exact_answer_ends_round (run_query db_shared) 1 (1#2)
           [("q1", link "q1" "s1" (1#2)); ("q2", link "q2" "s1" (1#2))]
           "s2" [] H).
Defined.

(** ** Question ids of a skill *)


Lemma NoDup_map_on {A B} (f : A -> B) : forall l,
  NoDup l ->
  (forall a b, In a l -> In b l -> f a = f b -> a = b) ->
  NoDup (map f l).
Proof.
  induction l as [|x l IH]; intros Hnd Hinj; simpl; [constructor|].
  inversion Hnd as [|? ? Hnin Hnd']; subst. constructor.
  - intros Hin. apply in_map_iff in Hin. destruct Hin as (y & E & Hy).
    assert (y = x) by (apply Hinj; simpl; auto). subst y. exact (Hnin Hy).
  - apply IH; [exact Hnd'|]. intros a b Ha Hb. apply Hinj; simpl; auto.
Qed.

(** X14: in a store whose entities have pairwise different ids, each the model id
    of its own fields, [get_all_question_ids_linked_to_skill_id] lists no
    question id twice. *)
Theorem question_ids_of_skill_distinct (db : Datastore) (skill : string) :
  well_keyed db ->
  NoDup (map id db) ->
  NoDup (get_all_question_ids_linked_to_skill_id db skill).
Proof.
  intros Hkeys Hids. unfold get_all_question_ids_linked_to_skill_id, with_skill.
  apply NoDup_map_on.
  - apply NoDup_filter. eapply NoDup_map_inv. exact Hids.
  - intros a b Ha Hb Hq. apply filter_In in Ha, Hb.
    destruct Ha as [Ha Hsa], Hb as [Hb Hsb].
    apply String.eqb_eq in Hsa, Hsb.
    apply (NoDup_map_injective id db); auto.
    unfold well_keyed in Hkeys. rewrite Forall_forall in Hkeys.
    rewrite (Hkeys a Ha), (Hkeys b Hb). congruence.
Qed.

Lemma question_ids_of_skill_distinct_witness :
  well_keyed db_shared /\
  NoDup (map id db_shared) /\
  NoDup (get_all_question_ids_linked_to_skill_id db_shared "s1").
Proof.
  assert (H1 : well_keyed db_shared) by (repeat constructor).
  assert (H2 : NoDup (map id db_shared)).
  { simpl.
    repeat (constructor;
            [simpl; intros H;
             repeat (destruct H as [H|H]; [discriminate H|]); exact H|]).
    constructor. }
  split; [exact H1|]. split; [exact H2|].
  exact (question_ids_of_skill_distinct db_shared "s1" H1 H2).
Defined.

(** ** Ids of commit log entries *)

Lemma digits_have_no_dash : forall d s1 s2,
  NilEmpty.string_of_uint d <> (s1 ++ "-" ++ s2)%string.
Proof.
  induction d; intros [|c s1] s2; simpl; try discriminate;
    intros E; injection E as _ E; exact (IHd _ _ E).
Qed.

Lemma str_of_nonneg_digits v :
  0 <= v -> exists d, str_of_int v = NilEmpty.string_of_uint d.
Proof.
  intros Hv. unfold str_of_int. destruct v as [|p|p]; simpl.
  - exists (D0 Nil). reflexivity.
  - exists (Pos.to_uint p). unfold NilZero.string_of_uint.
    pose proof (DecimalPos.Unsigned.to_uint_nonnil p).
    destruct (Pos.to_uint p); congruence.
  - lia.
Qed.

Lemma str_of_int_inj v1 v2 : str_of_int v1 = str_of_int v2 -> v1 = v2.
Proof.
  unfold str_of_int. intros E. apply DecimalZ.to_int_inj.
  assert (Hnn : forall v, Z.to_int v <> Decimal.Pos Nil /\
                          Z.to_int v <> Decimal.Neg Nil).
  { intros [|p|p]; simpl; split; try discriminate;
      intros H; injection H as H;
      exact (DecimalPos.Unsigned.to_uint_nonnil p H). }
  pose proof (NilZero.isi (Z.to_int v1) (proj1 (Hnn v1)) (proj2 (Hnn v1))) as H1.
  pose proof (NilZero.isi (Z.to_int v2) (proj1 (Hnn v2)) (proj2 (Hnn v2))) as H2.
  rewrite E in H1. rewrite H1 in H2. injection H2. auto.
Qed.

Lemma split_at_last_dash : forall x y a b,
  (forall s1 s2, a <> (s1 ++ "-" ++ s2)%string) ->
  (forall s1 s2, b <> (s1 ++ "-" ++ s2)%string) ->
  (x ++ "-" ++ a)%string = (y ++ "-" ++ b)%string -> x = y /\ a = b.
Proof.
  induction x as [|c x IH]; intros [|c' y] a b Ha Hb E; simpl in E.
  - injection E as E. auto.
  - injection E as _ E. exfalso. exact (Ha _ _ E).
  - injection E as _ E. exfalso. symmetry in E. exact (Hb _ _ E).
  - injection E as -> E. destruct (IH y a b Ha Hb E) as [-> ->]. auto.
Qed.

(** A negative version breaks the correspondence: the numeral brings a
    second ['-']. *)
Example commit_log_id_clash_on_negative_version :
  get_instance_id "a" (-2) = get_instance_id "a-" 2.
Proof. reflexivity. Qed.

(** X15: the id of a commit log entry determines the question id and the version
    it was built from, as long as versions are not negative: two entries of
    different questions or versions never get the same id. *)
Theorem commit_log_id_injective (q1 q2 : string) (v1 v2 : Z) :
  0 <= v1 -> 0 <= v2 ->
  get_instance_id q1 v1 = get_instance_id q2 v2 ->
  q1 = q2 /\ v1 = v2.
Proof.
  intros H1 H2 E. unfold get_instance_id in E. simpl in E.
  injection E as E.
  destruct (str_of_nonneg_digits v1 H1) as (d1 & E1).
  destruct (str_of_nonneg_digits v2 H2) as (d2 & E2).
  apply split_at_last_dash in E.
  - destruct E as [-> E]. split; [reflexivity|apply str_of_int_inj, E].
  - rewrite E1. apply digits_have_no_dash.
  - rewrite E2. apply digits_have_no_dash.
Qed.

Lemma commit_log_id_injective_witness :
  0 <= 3 /\ 0 <= 3 /\
  get_instance_id "q1" 3 = get_instance_id "q1" 3 /\
  "q1" = "q1" /\ 3 = 3.
Proof.
  assert (H : 0 <= 3) by lia.
  assert (E : get_instance_id "q1" 3 = get_instance_id "q1" 3) by reflexivity.
  split; [exact H|]. split; [exact H|]. split; [exact E|].
  exact (commit_log_id_injective "q1" "q1" 3 3 H H E).
Defined.

(** ** New question ids *)

Lemma get_new_id_loop_ok {StateData}
    (store : list (Question.QuestionModel StateData)) new_ids :
  forall retries attempt new_id,
    Question.get_new_id_loop store new_ids retries attempt = Ok new_id <->
    exists k, (k < retries)%nat /\ new_id = new_ids (attempt + k)%nat /\
      Question.get_by_id store new_id = None /\
      forall j, (j < k)%nat ->
        Question.get_by_id store (new_ids (attempt + j)%nat) <> None.
Proof.
  induction retries as [|retries IH]; intros attempt new_id; simpl.
  - split; [discriminate|]. intros (k & Hk & _). lia.
  - destruct (Question.get_by_id store (new_ids attempt)) as [m|] eqn:E.
    + rewrite IH. split.
      * intros (k & Hk & Hid & Hfresh & Hearlier). exists (S k).
        rewrite Nat.add_succ_r. split; [lia|]. split; [exact Hid|].
        split; [exact Hfresh|]. intros [|j] Hj.
        -- rewrite Nat.add_0_r, E. discriminate.
        -- rewrite Nat.add_succ_r. apply Hearlier. lia.
      * intros (k & Hk & Hid & Hfresh & Hearlier). destruct k as [|k].
        -- rewrite Nat.add_0_r in Hid. subst new_id. congruence.
        -- exists k. rewrite Nat.add_succ_r in Hid. split; [lia|].
           split; [exact Hid|]. split; [exact Hfresh|]. intros j Hj.
           specialize (Hearlier (S j)). rewrite Nat.add_succ_r in Hearlier.
           apply Hearlier. lia.
    + split.
      * intros [= <-]. exists 0%nat. rewrite Nat.add_0_r.
        split; [lia|]. split; [reflexivity|]. split; [exact E|].
        intros j Hj. lia.
      * intros (k & Hk & Hid & Hfresh & Hearlier). destruct k as [|k].
        -- rewrite Nat.add_0_r in Hid. subst. reflexivity.
        -- exfalso. apply (Hearlier 0%nat); [lia|].
           rewrite Nat.add_0_r. exact E.
Qed.

Lemma get_new_id_loop_raise {StateData}
    (store : list (Question.QuestionModel StateData)) new_ids :
  forall retries attempt e,
    Question.get_new_id_loop store new_ids retries attempt = Raise e <->
    e = Question.too_many_collisions /\
    forall k, (k < retries)%nat ->
      Question.get_by_id store (new_ids (attempt + k)%nat) <> None.
Proof.
  induction retries as [|retries IH]; intros attempt e; simpl.
  - split.
    + intros [= <-]. split; [reflexivity|]. intros k Hk. lia.
    + intros [-> _]. reflexivity.
  - destruct (Question.get_by_id store (new_ids attempt)) as [m|] eqn:E.
    + rewrite IH. split; intros [He Hall]; (split; [exact He|]).
      * intros [|k] Hk.
        -- rewrite Nat.add_0_r, E. discriminate.
        -- rewrite Nat.add_succ_r. apply Hall. lia.
      * intros k Hk. specialize (Hall (S k)).
        rewrite Nat.add_succ_r in Hall. apply Hall. lia.
    + split; [discriminate|]. intros [_ Hall]. exfalso.
      apply (Hall 0%nat); [lia|]. rewrite Nat.add_0_r. exact E.
Qed.

(** X16: [_get_new_id] returns the first of the ids it computes that no stored
    question has, and raises the too-many-collisions error exactly when all
    [MAX_RETRIES] computed ids are taken; with [MAX_RETRIES = 0] it always
    raises. *)
Theorem new_id_first_free_or_raise {StateData : Type} (MAX_RETRIES : nat)
    (store : list (Question.QuestionModel StateData))
    (new_ids : nat -> string) :
  (forall new_id,
     Question.get_new_id MAX_RETRIES store new_ids = Ok new_id <->
     exists k, (k < MAX_RETRIES)%nat /\ new_id = new_ids k /\
       Question.get_by_id store new_id = None /\
       forall j, (j < k)%nat -> Question.get_by_id store (new_ids j) <> None) /\
  (forall e,
     Question.get_new_id MAX_RETRIES store new_ids = Raise e <->
     e = Question.too_many_collisions /\
     forall k, (k < MAX_RETRIES)%nat ->
       Question.get_by_id store (new_ids k) <> None).
Proof.
  unfold Question.get_new_id. split.
  - intros new_id. apply get_new_id_loop_ok.
  - intros e. apply get_new_id_loop_raise.
Qed.

(** X17: a question that [QuestionModel.create] returns carries the given fields
    under an id that no stored question has. *)
Theorem created_question_has_free_id {StateData : Type} (MAX_RETRIES : nat)
    (store : list (Question.QuestionModel StateData))
    (new_ids : nat -> string) (state : StateData) (language : string)
    (version : Z) (skills : list string)
    (question : Question.QuestionModel StateData) :
  Question.create MAX_RETRIES store new_ids state language version skills
    = Ok question ->
  Question.get_by_id store (Question.id question) = None /\
  (forall stored, In stored store ->
     Question.id stored <> Question.id question) /\
  Question.question_state_data question = state /\
  Question.language_code question = language /\
  Question.version question = version /\
  Question.linked_skill_ids question = skills.
Proof.
  unfold Question.create.
  destruct (Question.get_new_id MAX_RETRIES store new_ids) as [new_id|e] eqn:E;
    [|discriminate].
  intros [= <-]. simpl.
  apply get_new_id_loop_ok in E. destruct E as (k & _ & _ & Hfree & _).
  split; [exact Hfree|]. split; [|auto].
  intros stored Hin Heq. unfold Question.get_by_id in Hfree.
  apply (find_none _ _ Hfree) in Hin. apply String.eqb_neq in Hin. auto.
Qed.

Lemma created_question_witness :
  Question.create 2
    [Question.mkQuestion "abc" tt "en" 1 ["s1"]]
    (fun k => match k with O => "abc" | _ => "xyz" end) tt "en" 1 ["s2"]
  = Ok (Question.mkQuestion "xyz" tt "en" 1 ["s2"]) /\
  Question.get_by_id [Question.mkQuestion "abc" tt "en" 1 ["s1"]]
    (Question.id (Question.mkQuestion "xyz" tt "en" 1 ["s2"])) = None /\
  (forall stored, In stored [Question.mkQuestion "abc" tt "en" 1 ["s1"]] ->
     Question.id stored
     <> Question.id (Question.mkQuestion "xyz" tt "en" 1 ["s2"])) /\
  Question.question_state_data (Question.mkQuestion "xyz" tt "en" 1 ["s2"])
  = tt /\
  Question.language_code (Question.mkQuestion "xyz" tt "en" 1 ["s2"]) = "en" /\
  Question.version (Question.mkQuestion "xyz" tt "en" 1 ["s2"]) = 1 /\
  Question.linked_skill_ids (Question.mkQuestion "xyz" tt "en" 1 ["s2"])
  = ["s2"].
Proof.
  assert (H : Question.create 2
                [Question.mkQuestion "abc" tt "en" 1 ["s1"]]
                (fun k => match k with O => "abc" | _ => "xyz" end)
                tt "en" 1 ["s2"]
              = Ok (Question.mkQuestion "xyz" tt "en" 1 ["s2"]))
    by reflexivity.
  split; [exact H|].
  exact (created_question_has_free_id 2
           [Question.mkQuestion "abc" tt "en" 1 ["s1"]]
           (fun k => match k with O => "abc" | _ => "xyz" end)
           tt "en" 1 ["s2"] _ H).
Defined.

(** ** Question summaries of a user *)

(** X18: [has_reference_to_user_id] holds exactly when [get_by_creator_id] finds a
    summary, that is when some stored summary has the user as creator; and
    [get_by_creator_id] returns the stored summaries of that creator and no
    others. *)
Theorem reference_iff_summary_by_creator
    (store : list Summary.QuestionSummaryModel) (user_id : string) :
  (Summary.has_reference_to_user_id store user_id = true
   <-> Summary.get_by_creator_id store user_id <> []) /\
  (Summary.has_reference_to_user_id store user_id = true
   <-> exists m, In m store /\ Summary.creator_id m = user_id) /\
  (forall m, In m (Summary.get_by_creator_id store user_id)
     <-> In m store /\ Summary.creator_id m = user_id).
Proof.
  assert (Hget : forall m, In m (Summary.get_by_creator_id store user_id)
                   <-> In m store /\ Summary.creator_id m = user_id).
  { intros m. unfold Summary.get_by_creator_id. rewrite filter_In.
    rewrite String.eqb_eq. reflexivity. }
  assert (Hhas : Summary.has_reference_to_user_id store user_id = true
                 <-> exists m, In m store /\ Summary.creator_id m = user_id).
  { unfold Summary.has_reference_to_user_id.
    destruct (find _ store) as [m|] eqn:E.
    - apply find_some in E. rewrite String.eqb_eq in E.
      split; [intros _; exists m; exact E|reflexivity].
    - split; [discriminate|]. intros (m & Hin & Hc).
      apply (find_none _ _ E) in Hin. apply String.eqb_neq in Hin.
      contradiction. }
  split; [|split; assumption].
  rewrite Hhas. split.
  - intros (m & Hm) E. apply Hget in Hm. rewrite E in Hm. destruct Hm.
  - intros Hne.
    destruct (Summary.get_by_creator_id store user_id) as [|m rest] eqn:E;
      [congruence|].
    exists m. apply Hget. left. reflexivity.
Qed.

(** ** Writing and deleting links *)

Lemma get_list_put_same : forall db l, get (list_put db l) (id l) = Some l.
Proof.
  intros db l. unfold list_put, get.
  destruct (existsb (fun x => String.eqb (id x) (id l)) db) eqn:E.
  - induction db as [|x db IH]; simpl in *; [discriminate|].
    destruct (String.eqb (id x) (id l)) eqn:Ex; simpl.
    + rewrite String.eqb_refl. reflexivity.
    + rewrite Ex. apply IH. exact E.
  - induction db as [|x db IH]; simpl in *.
    + rewrite String.eqb_refl. reflexivity.
    + apply orb_false_iff in E. destruct E as [Ex E]. rewrite Ex. apply IH, E.
Qed.

Lemma get_list_put_other : forall db l key,
  key <> id l -> get (list_put db l) key = get db key.
Proof.
  intros db l key Hne. unfold list_put, get.
  assert (Hl : String.eqb (id l) key = false)
    by (apply String.eqb_neq; congruence).
  destruct (existsb (fun x => String.eqb (id x) (id l)) db).
  - induction db as [|x db IH]; simpl; [reflexivity|].
    destruct (String.eqb (id x) (id l)) eqn:Ex.
    + apply String.eqb_eq in Ex. rewrite Ex, Hl. exact IH.
    + destruct (String.eqb (id x) key); [reflexivity|exact IH].
  - induction db as [|x db IH]; simpl.
    + rewrite Hl. reflexivity.
    + destruct (String.eqb (id x) key); [reflexivity|exact IH].
Qed.

Lemma get_list_delete_same : forall db l,
  get (list_delete_multi db [l]) (id l) = None.
Proof.
  intros db l. unfold list_delete_multi, get.
  induction db as [|x db IH]; simpl; [reflexivity|].
  destruct (String.eqb (id l) (id x)) eqn:Ex; simpl; [exact IH|].
  rewrite String.eqb_sym, Ex. exact IH.
Qed.

Lemma get_list_delete_other : forall db l key,
  key <> id l -> get (list_delete_multi db [l]) key = get db key.
Proof.
  intros db l key Hne. unfold list_delete_multi, get.
  induction db as [|x db IH]; simpl; [reflexivity|].
  destruct (String.eqb (id l) (id x)) eqn:Ex; simpl.
  - apply String.eqb_eq in Ex. rewrite <- Ex.
    assert (Hl : String.eqb (id l) key = false)
      by (apply String.eqb_neq; congruence).
    rewrite Hl. exact IH.
  - destruct (String.eqb (id x) key); [reflexivity|exact IH].
Qed.

Lemma list_store_laws : store_laws list_put_multi list_delete_multi.
Proof.
  constructor.
  - intros db l. apply get_list_put_same.
  - intros db l key. apply get_list_put_other.
  - apply get_list_delete_same.
  - apply get_list_delete_other.
Qed.

Lemma create_ok_id db qid sid difficulty l db' :
  create db qid sid difficulty = (Ok l, db') ->
  l = mkLink (get_model_id qid sid) qid sid difficulty /\
  get db (get_model_id qid sid) = None.
Proof.
  unfold create. destruct (get db (get_model_id qid sid)); [discriminate|].
  intros [= <- _]. auto.
Qed.

Lemma create_outcome_by_get db1 db2 qid sid difficulty :
  get db1 (get_model_id qid sid) = get db2 (get_model_id qid sid) ->
  fst (create db1 qid sid difficulty) = fst (create db2 qid sid difficulty).
Proof.
  unfold create. intros ->.
  destruct (get db2 (get_model_id qid sid)); reflexivity.
Qed.

(** X19: on a store where a written entity is found under its id and other ids
    are left alone: once the link that [create] returned has been written
    with [put_multi_question_skill_links], creating the same pair again
    raises the conflict error, whatever the difficulty, while creating any
    other pair (question ids without ':') has the outcome it had before. *)
Theorem written_link_blocks_its_pair_only
    (put_multi delete_multi : Datastore -> list Link -> Datastore)
    (db : Datastore) (qid sid : string) (difficulty : Q) (l : Link) :
  store_laws put_multi delete_multi ->
  fst (create db qid sid difficulty) = Ok l ->
  no_colon qid = true ->
  (forall difficulty',
     fst (create (put_multi_question_skill_links put_multi db [l])
            qid sid difficulty') = Raise already_linked) /\
  (forall qid' sid' difficulty',
     no_colon qid' = true -> (qid', sid') <> (qid, sid) ->
     fst (create (put_multi_question_skill_links put_multi db [l])
            qid' sid' difficulty')
     = fst (create db qid' sid' difficulty')).
Proof.
  intros Hlaws Hcreate Hqid.
  assert (Hl : id l = get_model_id qid sid).
  { destruct (create db qid sid difficulty) as [r db'] eqn:E.
    simpl in Hcreate. subst r. apply create_ok_id in E.
    destruct E as [-> _]. reflexivity. }
  unfold put_multi_question_skill_links. split.
  - intros difficulty'. unfold create.
    rewrite <- Hl, (get_put_same _ _ Hlaws). reflexivity.
  - intros qid' sid' difficulty' Hqid' Hother.
    apply create_outcome_by_get. apply (get_put_other _ _ Hlaws).
    rewrite Hl. intros E.
    apply get_model_id_inj in E; [|assumption|assumption].
    destruct E as [-> ->]. apply Hother. reflexivity.
Qed.

Lemma written_link_witness :
  store_laws list_put_multi list_delete_multi /\
  fst (create db_scenario "q1" "s2" (1#2)) = Ok (link "q1" "s2" (1#2)) /\
  no_colon "q1" = true /\
  (forall difficulty',
     fst (create (put_multi_question_skill_links list_put_multi db_scenario
                    [link "q1" "s2" (1#2)])
            "q1" "s2" difficulty') = Raise already_linked) /\
  (forall qid' sid' difficulty',
     no_colon qid' = true -> (qid', sid') <> ("q1", "s2") ->
     fst (create (put_multi_question_skill_links list_put_multi db_scenario
                    [link "q1" "s2" (1#2)])
            qid' sid' difficulty')
     = fst (create db_scenario qid' sid' difficulty')).
Proof.
  assert (H1 : fst (create db_scenario "q1" "s2" (1#2))
               = Ok (link "q1" "s2" (1#2))) by reflexivity.
  assert (H2 : no_colon "q1" = true) by reflexivity.
  split; [exact list_store_laws|]. split; [exact H1|]. split; [exact H2|].
  exact (written_link_blocks_its_pair_only list_put_multi list_delete_multi
           db_scenario "q1" "s2" (1#2) (link "q1" "s2" (1#2))
           list_store_laws H1 H2).
Defined.

(** X20: on a store where a deleted entity is no longer found under its id: after
    [delete_multi_question_skill_links] of the link of a pair, [create]
    for that pair returns a new instance instead of raising. *)
Theorem deleted_link_frees_its_pair
    (put_multi delete_multi : Datastore -> list Link -> Datastore)
    (db : Datastore) (qid sid : string) (difficulty : Q) (l : Link) :
  store_laws put_multi delete_multi ->
  id l = get_model_id qid sid ->
  fst (create (delete_multi_question_skill_links delete_multi db [l])
         qid sid difficulty)
  = Ok (mkLink (get_model_id qid sid) qid sid difficulty).
Proof.
  intros Hlaws Hl. unfold delete_multi_question_skill_links, create.
  rewrite <- Hl, (get_delete_same _ _ Hlaws). reflexivity.
Qed.

Lemma deleted_link_witness :
  store_laws list_put_multi list_delete_multi /\
  id (link "q1" "s1" (3#10)) = get_model_id "q1" "s1" /\
  fst (create db_scenario "q1" "s1" (1#2)) = Raise already_linked /\
  fst (create (delete_multi_question_skill_links list_delete_multi db_scenario
                 [link "q1" "s1" (3#10)])
         "q1" "s1" (1#2))
  = Ok (mkLink (get_model_id "q1" "s1") "q1" "s1" (1#2)).
Proof.
  assert (H : id (link "q1" "s1" (3#10)) = get_model_id "q1" "s1")
    by reflexivity.
  split; [exact list_store_laws|]. split; [exact H|].
  split; [reflexivity|].
  exact (deleted_link_frees_its_pair list_put_multi list_delete_multi
           db_scenario "q1" "s1" (1#2) (link "q1" "s1" (3#10))
           list_store_laws H).
Defined.
